(** * crun: the privileged transition engine of [src/libcrun/linux.c]

    A shallow embedding of the namespace isolator, the mount plan executor,
    the root transition, the user-namespace identity mapper, the capability
    manager and the resource limit setter, followed by the properties the
    specification states about them.

    Conventions.
    - A C [int] / [unsigned long] is a [Z].  Every flag word handled here is a
      union of constants below [2^31], so no operation of the file wraps; the
      one narrowing store (the 32-bit words handed to [capset]) is written
      out with [mod 2^32], and [%d] of an unsigned id is printed signed.
    - A [char *] is a [string]; a pointer that the code tests against [NULL]
      is an [option].
    - The kernel and the helpers of [utils.c] are an [oracle]: a function from
      the calls made so far and the call being made to its reply.  Every
      call is appended to the [trace] of the state, oldest first.
    - A function body is a computation of the monad [M]; [return] leaves the
      body at once.  A body that reaches its closing brace yields [NoValue];
      the caller that goes on to use the value gets one from the environment.
    - [read_caps] and [libcrun_set_caps] resolve capability names through
      [cap_from_name] of libcap, which is a parameter of their embedding. *)

From Stdlib Require Import ZArith String Ascii List Bool Lia DecimalString.
Import ListNotations.
Local Open Scope Z_scope.

Notation "a +++ b" := (String.append a b) (at level 60, right associativity).

(* ================================================================== *)
(** * Constants of the system headers *)
(* ================================================================== *)

(** <sched.h> *)
Definition CLONE_NEWNS     : Z := 0x00020000.
Definition CLONE_NEWCGROUP : Z := 0x02000000.
Definition CLONE_NEWUTS    : Z := 0x04000000.
Definition CLONE_NEWIPC    : Z := 0x08000000.
Definition CLONE_NEWUSER   : Z := 0x10000000.
Definition CLONE_NEWPID    : Z := 0x20000000.
Definition CLONE_NEWNET    : Z := 0x40000000.

(** <sys/mount.h> *)
Definition MS_RDONLY      : Z := 1.
Definition MS_NOSUID      : Z := 2.
Definition MS_NODEV       : Z := 4.
Definition MS_NOEXEC      : Z := 8.
Definition MS_SYNCHRONOUS : Z := 16.
Definition MS_DIRSYNC     : Z := 128.
Definition MS_NOATIME     : Z := 1024.
Definition MS_NODIRATIME  : Z := 2048.
Definition MS_BIND        : Z := 4096.
Definition MS_REC         : Z := 16384.
Definition MS_UNBINDABLE  : Z := Z.shiftl 1 17.
Definition MS_PRIVATE     : Z := Z.shiftl 1 18.
Definition MS_SLAVE       : Z := Z.shiftl 1 19.
Definition MS_SHARED      : Z := Z.shiftl 1 20.
Definition MS_RELATIME    : Z := Z.shiftl 1 21.
Definition MS_STRICTATIME : Z := Z.shiftl 1 24.
Definition MS_LAZYTIME    : Z := Z.shiftl 1 25.
Definition MNT_DETACH     : Z := 2.

(** <fcntl.h> *)
Definition O_RDONLY    : Z := 0.
Definition O_DIRECTORY : Z := 0x10000.

(** The octal literal [0755]. *)
Definition mode_0755 : Z := 7 * 64 + 5 * 8 + 5.

(** <errno.h> *)
Definition EPERM  : Z := 1.
Definition EINVAL : Z := 22.

(** <sys/prctl.h>, <linux/capability.h> *)
Definition PR_CAPBSET_DROP          : Z := 24.
Definition PR_SET_NO_NEW_PRIVS      : Z := 38.
Definition PR_CAP_AMBIENT           : Z := 47.
Definition PR_CAP_AMBIENT_RAISE     : Z := 2.
Definition PR_CAP_AMBIENT_CLEAR_ALL : Z := 4.
Definition _LINUX_CAPABILITY_VERSION_3 : Z := 0x20080522.

(** <sys/resource.h> *)
Definition RLIMIT_CPU        : Z := 0.
Definition RLIMIT_FSIZE      : Z := 1.
Definition RLIMIT_DATA       : Z := 2.
Definition RLIMIT_STACK      : Z := 3.
Definition RLIMIT_CORE       : Z := 4.
Definition RLIMIT_RSS        : Z := 5.
Definition RLIMIT_NPROC      : Z := 6.
Definition RLIMIT_NOFILE     : Z := 7.
Definition RLIMIT_MEMLOCK    : Z := 8.
Definition RLIMIT_AS         : Z := 9.
Definition RLIMIT_LOCKS      : Z := 10.
Definition RLIMIT_SIGPENDING : Z := 11.
Definition RLIMIT_MSGQUEUE   : Z := 12.
Definition RLIMIT_NICE       : Z := 13.
Definition RLIMIT_RTPRIO     : Z := 14.
Definition RLIMIT_RTTIME     : Z := 15.

(* ================================================================== *)
(** * Strings *)
(* ================================================================== *)

(** [strcmp]: the sign of the first differing byte, bytes compared unsigned. *)
Definition strcmp (a b : string) : Z :=
  match String.compare a b with
  | Eq => 0
  | Lt => -1
  | Gt => 1
  end.

(** [%d] applied to a 32-bit quantity: the signed reading, in decimal. *)
Definition fmt_d (n : Z) : string :=
  let u := n mod 2 ^ 32 in
  NilZero.string_of_int (Z.to_int (if u <? 2 ^ 31 then u else u - 2 ^ 32)).

(** [%s] applied to a possibly null pointer (glibc prints [(null)]). *)
Definition fmt_s (s : option string) : string :=
  match s with
  | Some x => x
  | None => "(null)"%string
  end.

(** [p + 1] on a string: the string without its first byte.  The code only
    applies it to a mount destination, an absolute path; on the empty
    string the C expression points past the terminator, which is left
    empty here. *)
Definition str_tail (s : string) : string :=
  match s with
  | EmptyString => EmptyString
  | String _ rest => rest
  end.

(* ================================================================== *)
(** * Data model *)
(* ================================================================== *)

(** The parts of the parsed container definition that [linux.c] reads. *)
Record oci_namespace := {
  ns_type : string;
  ns_path : option string
}.

Record oci_mount := {
  mnt_destination : string;
  mnt_source : option string;
  mnt_type : string;
  mnt_options : option (list string)
}.

Record oci_rlimit := {
  rl_type : string;
  rl_soft : Z;
  rl_hard : Z
}.

Record oci_container := {
  linux_namespaces : list oci_namespace;
  linux_rootfs_propagation : option string;
  root_path : string;
  mounts : list oci_mount;
  process_rlimits : option (list oci_rlimit)
}.

Record crun_container := {
  container_def : oci_container;
  host_uid : Z;
  host_gid : Z;
  unshare_flags : Z
}.

Definition set_unshare_flags (c : crun_container) (flags : Z) : crun_container :=
  {| container_def := container_def c;
     host_uid := host_uid c;
     host_gid := host_gid c;
     unshare_flags := flags |}.

(** The error object behind [char **err]. *)
Record crun_error := {
  err_status : Z;
  err_msg : string
}.

(* ================================================================== *)
(** * The environment: system calls and the helpers of utils.c *)
(* ================================================================== *)

Record cap_data := {
  cd_effective : Z;
  cd_permitted : Z;
  cd_inheritable : Z
}.

Inductive call : Type :=
| sys_unshare (flags : Z)
| sys_open (path : option string) (oflags : Z)
| sys_close (fd : Z)
| sys_setns (fd nstype : Z)
| sys_mount (source : string) (target : option string) (fstype : string)
            (flags : Z) (data : option string)
| sys_umount2 (target : string) (flags : Z)
| sys_fchdir (fd : Z)
| sys_chdir (path : string)
| sys_pivot_root (new_root put_old : string)
| sys_prctl (option arg2 arg3 arg4 arg5 : Z)
| sys_capset (version pid : Z) (data0 data1 : cap_data)
| sys_setrlimit (resource rlim_cur rlim_max : Z)
| ensure_directory (path : string) (mode : Z)
| write_file (path content : string) (len : Z)
| leftover_value.

(** [leftover_value] is no call of the program: it stands for the question
    of what a caller finds when the [int] function it called ended without a
    [return].  The environment answers it like a call, but it never enters
    the trace. *)

(** What a call answers: its return value, and the [errno] it leaves when
    that value is negative. *)
Record reply := {
  rv : Z;
  rerrno : Z
}.

Definition oracle := list call -> call -> reply.

Record state := {
  container : crun_container;
  errno : Z;
  err : option crun_error;
  trace : list call
}.

(* ================================================================== *)
(** * Control flow of a function body *)
(* ================================================================== *)

(** What a call of an [int] function hands to its caller. *)
Inductive result : Type :=
| Value (v : Z)
| NoValue.

Inductive flow (A : Type) : Type :=
| Normal (a : A)
| Stop (r : result).
Arguments Normal {A} a.
Arguments Stop {A} r.

Definition M (A : Type) : Type := state -> flow A * state.

Definition pure {A} (a : A) : M A := fun s => (Normal a, s).

Definition bind {A B} (m : M A) (k : A -> M B) : M B :=
  fun s =>
    match m s with
    | (Normal a, s') => k a s'
    | (Stop r, s') => (Stop r, s')
    end.

Notation "x <- m ;; k" := (bind m (fun x => k))
  (at level 61, m at next level, right associativity).
Notation "m ;;; k" := (bind m (fun _ => k))
  (at level 61, right associativity).

(** [return v;] *)
Definition return_ {A} (v : Z) : M A := fun s => (Stop (Value v), s).

(** Running a whole body: the closing brace of a function that was to
    return an [int] yields no value. *)
Definition run (body : M unit) (s : state) : result * state :=
  match body s with
  | (Normal _, s') => (NoValue, s')
  | (Stop r, s') => (r, s')
  end.

Definition get_container : M crun_container := fun s => (Normal (container s), s).
Definition get_errno : M Z := fun s => (Normal (errno s), s).

Definition put_container (c : crun_container) : M unit :=
  fun s => (Normal tt,
            {| container := c; errno := errno s; err := err s; trace := trace s |}).

Definition put_err (e : crun_error) : M unit :=
  fun s => (Normal tt,
            {| container := container s; errno := errno s; err := Some e;
               trace := trace s |}).

(** Modelled from the spec: crun_static_error (utils.c is not among the
    sources).  Section 6: on failure the caller gets a failure result and a
    message naming the failing operation and its argument, plus the OS error
    code where applicable.  The message, already formatted, and the status
    are stored through [err]; the value is negative, which is what every
    caller tests. *)
Definition crun_static_error (status : Z) (msg : string) : M Z :=
  put_err {| err_status := status; err_msg := msg |} ;;; pure (-1).

Section Environment.

Variable os : oracle.

(** One call into the environment.  [errno] changes only when the call
    fails. *)
Definition sys (c : call) : M Z :=
  fun s =>
    let r := os (trace s) c in
    (Normal (rv r),
     {| container := container s;
        errno := if rv r <? 0 then rerrno r else errno s;
        err := err s;
        trace := trace s ++ [c] |}).

(** [ret = f (...)]: the caller goes on with the value returned.  When the
    callee returned none, the caller goes on all the same, with a value
    that the program does not determine: the environment chooses it. *)
Definition invoke (body : M unit) : M Z :=
  fun s =>
    match run body s with
    | (Value v, s') => (Normal v, s')
    | (NoValue, s') => (Normal (rv (os (trace s') leftover_value)), s')
    end.

(** Modelled from the spec: cleanup_close (utils.h is not among the sources).
    Section 5: a descriptor is closed on every exit path; nothing is closed
    when none was opened. *)
Definition cleanup_close (fd : Z) : M unit :=
  if fd <? 0 then pure tt else sys (sys_close fd) ;;; pure tt.

(** A scope with cleanup attributes: the cleanup runs however the scope is
    left, and does not change the way it is left. *)
Definition scoped {A} (body : M A) (cleanup : M unit) : M A :=
  fun s =>
    match body s with
    | (f, s') => (f, snd (cleanup s'))
    end.

(** Modelled from the spec: crun_ensure_directory and write_file (utils.c is
    not among the sources).  Sections 4.2 and 4.4: each either succeeds or
    fails fatally; a failing helper stores a message naming its path
    through [err] before it returns the negative value. *)
Definition helper (c : call) (path : string) : M Z :=
  r <- sys c ;;
  if r <? 0 then
    e <- get_errno ;;
    put_err {| err_status := e; err_msg := path |} ;;; pure r
  else pure r.

Definition crun_ensure_directory (path : string) (mode : Z) : M Z :=
  helper (ensure_directory path mode) path.

Definition call_write_file (path content : string) (len : Z) : M Z :=
  helper (write_file path content len) path.

(* ================================================================== *)
(** * Namespace isolator *)
(* ================================================================== *)

Record linux_namespace_s := {
  lns_name : string;
  lns_value : Z
}.

Definition namespaces : list linux_namespace_s :=
  [ {| lns_name := "mount"; lns_value := CLONE_NEWNS |};
    {| lns_name := "cgroup"; lns_value := CLONE_NEWCGROUP |};
    {| lns_name := "network"; lns_value := CLONE_NEWNET |};
    {| lns_name := "ipc"; lns_value := CLONE_NEWIPC |};
    {| lns_name := "pid"; lns_value := CLONE_NEWPID |};
    {| lns_name := "uts"; lns_value := CLONE_NEWUTS |};
    {| lns_name := "user"; lns_value := CLONE_NEWUSER |} ].

Fixpoint find_namespace_from (it : list linux_namespace_s) (name : string) : Z :=
  match it with
  | [] => -1
  | e :: it' =>
      if strcmp (lns_name e) name =? 0 then lns_value e
      else find_namespace_from it' name
  end.

Definition find_namespace (name : string) : Z :=
  find_namespace_from namespaces name.

(** The first loop: accumulate the flags, stop at the first unknown type. *)
Fixpoint set_namespaces_flags (l : list oci_namespace) (flags : Z) : M Z :=
  match l with
  | [] => pure flags
  | ns :: rest =>
      let value := find_namespace (ns_type ns) in
      if value <? 0 then
        v <- crun_static_error 0 ("invalid namespace type: " +++ ns_type ns) ;;
        return_ v
      else set_namespaces_flags rest (Z.lor flags value)
  end.

(** The second loop: join the namespaces that carry a path. *)
Fixpoint set_namespaces_join (l : list oci_namespace) : M unit :=
  match l with
  | [] => pure tt
  | ns :: rest =>
      match ns_path ns with
      | None => set_namespaces_join rest
      | Some path =>
          let value := find_namespace (ns_type ns) in
          fd <- sys (sys_open (Some path) O_RDONLY) ;;
          if fd <? 0 then
            e <- get_errno ;;
            v <- crun_static_error e ("open '" +++ path +++ "'") ;;
            return_ v
          else
            r <- sys (sys_setns fd value) ;;
            if r <? 0 then
              e <- get_errno ;;
              v <- crun_static_error e ("setns '" +++ path +++ "'") ;;
              cleanup_close fd ;;;
              return_ v
            else
              cleanup_close fd ;;;
              set_namespaces_join rest
      end
  end.

Definition libcrun_set_namespaces : M unit :=
  c <- get_container ;;
  let def := container_def c in
  flags <- set_namespaces_flags (linux_namespaces def) 0 ;;
  put_container (set_unshare_flags c flags) ;;;
  r <- sys (sys_unshare flags) ;;
  if r <? 0 then
    e <- get_errno ;;
    v <- crun_static_error e "unshare" ;;
    return_ v
  else
    set_namespaces_join (linux_namespaces def) ;;;
    return_ 0.

(* ================================================================== *)
(** * Mount plan executor and root transition *)
(* ================================================================== *)

Record propagation_flags_s := {
  pf_name : string;
  pf_flags : Z
}.

Definition propagation_flags : list propagation_flags_s :=
  [ {| pf_name := "rshared"; pf_flags := Z.lor MS_REC MS_SHARED |};
    {| pf_name := "rslave"; pf_flags := Z.lor MS_REC MS_SLAVE |};
    {| pf_name := "rprivate"; pf_flags := Z.lor MS_REC MS_PRIVATE |};
    {| pf_name := "shared"; pf_flags := MS_SHARED |};
    {| pf_name := "slave"; pf_flags := MS_SLAVE |};
    {| pf_name := "private"; pf_flags := MS_PRIVATE |};
    {| pf_name := "unbindable"; pf_flags := MS_UNBINDABLE |};
    {| pf_name := "nosuid"; pf_flags := MS_NOSUID |};
    {| pf_name := "noexec"; pf_flags := MS_NOEXEC |};
    {| pf_name := "nodev"; pf_flags := MS_NODEV |};
    {| pf_name := "dirsync"; pf_flags := MS_DIRSYNC |};
    {| pf_name := "lazytime"; pf_flags := MS_LAZYTIME |};
    {| pf_name := "nodiratime"; pf_flags := MS_NODIRATIME |};
    {| pf_name := "noatime"; pf_flags := MS_NOATIME |};
    {| pf_name := "ro"; pf_flags := MS_RDONLY |};
    {| pf_name := "relatime"; pf_flags := MS_RELATIME |};
    {| pf_name := "strictatime"; pf_flags := MS_STRICTATIME |};
    {| pf_name := "synchronous"; pf_flags := MS_SYNCHRONOUS |} ].

Fixpoint get_mount_flags_from (it : list propagation_flags_s) (name : string) : Z :=
  match it with
  | [] => 0
  | e :: it' =>
      if strcmp (pf_name e) name =? 0 then pf_flags e
      else get_mount_flags_from it' name
  end.

Definition get_mount_flags (name : string) : Z :=
  get_mount_flags_from propagation_flags name.

(** [opt] is the in/out parameter [char **option]; the pair returned is
    the function's value and the new [*option]. *)
Definition get_mount_flags_or_option (name : string) (opt : option string)
  : Z * option string :=
  let flags := get_mount_flags name in
  if negb (flags =? 0) then (flags, opt)
  else
    match opt with
    | Some prev => (0, Some (prev +++ "," +++ name))
    | None => (0, Some name)
    end.

Definition pivot_root (new_root put_old : string) : M Z :=
  sys (sys_pivot_root new_root put_old).

Definition do_pivot (rootfs : option string) : M unit :=
  oldrootfd <- sys (sys_open (Some "/"%string) (Z.lor O_DIRECTORY O_RDONLY)) ;;
  newrootfd <- sys (sys_open rootfs (Z.lor O_DIRECTORY O_RDONLY)) ;;
  scoped
    (if oldrootfd <? 0 then
       e <- get_errno ;; v <- crun_static_error e "open '/'" ;; return_ v
     else if newrootfd <? 0 then
       e <- get_errno ;;
       v <- crun_static_error e ("open '" +++ fmt_s rootfs +++ "'") ;; return_ v
     else
       r <- sys (sys_fchdir newrootfd) ;;
       if r <? 0 then
         e <- get_errno ;;
         v <- crun_static_error e ("fchdir '" +++ fmt_s rootfs +++ "'") ;;
         return_ v
       else
       r <- pivot_root "." "." ;;
       if r <? 0 then
         e <- get_errno ;; v <- crun_static_error e "pivot_root" ;; return_ v
       else
       r <- sys (sys_fchdir oldrootfd) ;;
       if r <? 0 then
         e <- get_errno ;;
         v <- crun_static_error e ("fchdir '" +++ fmt_s rootfs +++ "'") ;;
         return_ v
       else
       r <- sys (sys_mount "" (Some "."%string) "" (Z.lor MS_PRIVATE MS_REC)
                           (Some ""%string)) ;;
       if r <? 0 then
         e <- get_errno ;;
         v <- crun_static_error e
                ("mount oldroot rprivate '" +++ fmt_s rootfs +++ "'") ;;
         return_ v
       else
       r <- sys (sys_umount2 "." MNT_DETACH) ;;
       if r <? 0 then
         e <- get_errno ;; v <- crun_static_error e "umount oldroot" ;; return_ v
       else
       r <- sys (sys_chdir "/") ;;
       if r <? 0 then
         e <- get_errno ;; v <- crun_static_error e "chdir to newroot" ;; return_ v
       else
       return_ 0)
    (cleanup_close newrootfd ;;; cleanup_close oldrootfd).

(** [data] is the in/out parameter [char **data]. *)
Definition get_default_flags (c : crun_container) (destination : string)
                             (data : option string) : Z * option string :=
  let userflags := if host_uid c =? 0 then 0 else Z.lor MS_PRIVATE MS_REC in
  if strcmp destination "/proc" =? 0 then (0, data)
  else if (strcmp destination "/dev/cgroup" =? 0)
          || (strcmp destination "/sys/fs/cgroup" =? 0) then
    (Z.lor (Z.lor MS_NOEXEC MS_NOSUID) MS_STRICTATIME, Some "none,name="%string)
  else if strcmp destination "/dev" =? 0 then
    (Z.lor MS_NOEXEC MS_STRICTATIME, Some "mode=755"%string)
  else if strcmp destination "/dev/shm" =? 0 then
    (Z.lor (Z.lor MS_NOEXEC MS_NOSUID) MS_NODEV, Some "mode=1777,size=65536k"%string)
  else if strcmp destination "/dev/mqueue" =? 0 then
    (Z.lor (Z.lor MS_NOEXEC MS_NOSUID) MS_NODEV, data)
  else if strcmp destination "/dev/pts" =? 0 then
    (Z.lor MS_NOEXEC MS_NOSUID,
     if host_uid c =? 0
     then Some "newinstance,ptmxmode=0666,mode=620,gid=5"%string
     else Some "newinstance,ptmxmode=0666,mode=620"%string)
  else if strcmp destination "/sys" =? 0 then
    (Z.lor (Z.lor MS_NOEXEC MS_NOSUID) MS_NODEV, data)
  else (0, data).

(** The inner loop of [do_mounts] over the option tokens. *)
Fixpoint fold_mount_options (options : list string) (flags : Z) (data : option string)
  : Z * option string :=
  match options with
  | [] => (flags, data)
  | o :: rest =>
      let '(f, data') := get_mount_flags_or_option o data in
      fold_mount_options rest (Z.lor flags f) data'
  end.

(** The path the request is mounted on. *)
Definition mount_target (rootfs : option string) (m : oci_mount) : string :=
  match rootfs with
  | Some r => r +++ "/" +++ str_tail (mnt_destination m)
  | None => mnt_destination m
  end.

(** The flag word and the data string the request is mounted with. *)
Definition mount_flags_data (c : crun_container) (m : oci_mount) : Z * option string :=
  let '(flags, data) :=
    match mnt_options m with
    | None => get_default_flags c (mnt_destination m) None
    | Some options => fold_mount_options options 0 None
    end in
  let type := mnt_type m in
  let flags := if strcmp type "bind" =? 0 then Z.lor flags MS_BIND else flags in
  let flags := Z.land flags (Z.lnot MS_RDONLY) in
  (flags, data).

(** One turn of the loop of [do_mounts]; [pure tt] is the way to the next
    turn, taken by [continue] and by the end of the body. *)
Definition do_mounts_body (rootfs : option string) (m : oci_mount) : M unit :=
  c <- get_container ;;
  let target := mount_target rootfs m in
  ret <- crun_ensure_directory target mode_0755 ;;
  if ret <? 0 then return_ ret
  else
    let '(flags, data) := mount_flags_data c m in
    let type := mnt_type m in
    let source := match mnt_source m with Some s => s | None => type end in
    if strcmp type "cgroup" =? 0 then pure tt
    else
      ret <- sys (sys_mount source (Some target) (mnt_type m) flags data) ;;
      if ret <? 0 then
        e <- get_errno ;;
        v <- crun_static_error e ("mount '" +++ mnt_destination m +++ "'") ;;
        return_ v
      else pure tt.

Fixpoint do_mounts_loop (rootfs : option string) (l : list oci_mount) : M unit :=
  match l with
  | [] => pure tt
  | m :: rest => do_mounts_body rootfs m ;;; do_mounts_loop rootfs rest
  end.

(** The body ends with the loop: there is no [return] after it. *)
Definition do_mounts (rootfs : option string) : M unit :=
  c <- get_container ;;
  do_mounts_loop rootfs (mounts (container_def c)).

Definition libcrun_set_mounts (rootfs : option string) : M unit :=
  c <- get_container ;;
  let def := container_def c in
  let rootfsPropagation :=
    match linux_rootfs_propagation def with
    | Some name => get_mount_flags name
    | None => Z.lor MS_REC MS_SLAVE
    end in
  ret <- sys (sys_mount "" (Some "/"%string) "" (Z.lor MS_REC rootfsPropagation) None) ;;
  if ret <? 0 then
    e <- get_errno ;; v <- crun_static_error e "remount root" ;; return_ v
  else
  ret <- sys (sys_mount (root_path def) rootfs ""
                        (Z.lor (Z.lor MS_BIND MS_REC) rootfsPropagation) None) ;;
  if ret <? 0 then
    e <- get_errno ;; v <- crun_static_error e "mount rootfs" ;; return_ v
  else
  ret <- invoke (do_mounts rootfs) ;;
  if ret <? 0 then return_ ret
  else
  ret <- invoke (do_pivot rootfs) ;;
  if ret <? 0 then return_ ret
  else return_ 0.

(* ================================================================== *)
(** * User-namespace identity mapper *)
(* ================================================================== *)

Definition strlen (s : string) : Z := Z.of_nat (String.length s).

(** The body ends after the test on the last write: there is no [return]
    on the path where every write succeeds. *)
Definition libcrun_set_usernamespace : M unit :=
  c <- get_container ;;
  let '(uid_map, gid_map) :=
    if host_uid c =? 0 then ("0 0 65536"%string, "0 0 65536"%string)
    else ("0 " +++ fmt_d (host_uid c) +++ " 1",
          "0 " +++ fmt_d (host_gid c) +++ " 1") in
  let uid_map_len := strlen uid_map in
  let gid_map_len := strlen gid_map in
  ret <- call_write_file "/proc/self/setgroups" "deny" 4 ;;
  if ret <? 0 then return_ ret
  else
  (if negb (host_uid c =? 0) then
     ret <- call_write_file "/proc/self/gid_map" gid_map gid_map_len ;;
     if ret <? 0 then return_ ret else pure tt
   else pure tt) ;;;
  ret <- call_write_file "/proc/self/uid_map" uid_map uid_map_len ;;
  if ret <? 0 then return_ ret
  else pure tt.

(* ================================================================== *)
(** * Capability manager *)
(* ================================================================== *)

Definition CAP_TO_MASK_0 (x : Z) : Z := Z.shiftl 1 (Z.land x 31).
Definition CAP_TO_MASK_1 (x : Z) : Z := CAP_TO_MASK_0 (x - 32).

(** Each field is the two-word array of the C structure. *)
Record all_caps_s := {
  effective : Z * Z;
  permitted : Z * Z;
  inheritable : Z * Z;
  ambient : Z * Z;
  bounding : Z * Z
}.

(** [ret < 0 && !(errno == EINVAL || errno == EPERM)] *)
Definition prctl_fatal (ret e : Z) : bool :=
  (ret <? 0) && negb ((e =? EINVAL) || (e =? EPERM)).

Section Capabilities.

(** <linux/capability.h>: the highest capability number the headers know. *)
Variable CAP_LAST_CAP : Z.

(** The values [cap] takes in [for (cap = 0; cap <= CAP_LAST_CAP; cap++)]. *)
Definition all_cap_numbers : list Z :=
  map Z.of_nat (seq 0 (Z.to_nat (CAP_LAST_CAP + 1))).

Fixpoint raise_ambient (caps : all_caps_s) (l : list Z) : M unit :=
  match l with
  | [] => pure tt
  | cap :: rest =>
      (if ((cap <? 32) && negb (Z.land (CAP_TO_MASK_0 cap) (fst (ambient caps)) =? 0))
          || ((32 <=? cap) && negb (Z.land (CAP_TO_MASK_1 cap) (snd (ambient caps)) =? 0))
       then
         ret <- sys (sys_prctl PR_CAP_AMBIENT PR_CAP_AMBIENT_RAISE cap 0 0) ;;
         e <- get_errno ;;
         if prctl_fatal ret e then
           v <- crun_static_error e "prctl ambient raise" ;; return_ v
         else pure tt
       else pure tt) ;;;
      raise_ambient caps rest
  end.

Fixpoint drop_bounding (caps : all_caps_s) (l : list Z) : M unit :=
  match l with
  | [] => pure tt
  | cap :: rest =>
      (if ((cap <? 32) && (Z.land (CAP_TO_MASK_0 cap) (fst (bounding caps)) =? 0))
          || ((32 <=? cap) && (Z.land (CAP_TO_MASK_1 cap) (snd (bounding caps)) =? 0))
       then
         ret <- sys (sys_prctl PR_CAPBSET_DROP cap 0 0 0) ;;
         e <- get_errno ;;
         if prctl_fatal ret e then
           v <- crun_static_error e "prctl drop bounding" ;; return_ v
         else pure tt
       else pure tt) ;;;
      drop_bounding caps rest
  end.

(** A store into a [__u32] field. *)
Definition to_u32 (x : Z) : Z := x mod 2 ^ 32.

Definition set_required_caps (caps : all_caps_s) (no_new_privs : bool) : M unit :=
  ret <- sys (sys_prctl PR_CAP_AMBIENT PR_CAP_AMBIENT_CLEAR_ALL 0 0 0) ;;
  e <- get_errno ;;
  if prctl_fatal ret e then
    v <- crun_static_error e "prctl reset ambient" ;; return_ v
  else
  raise_ambient caps all_cap_numbers ;;;
  drop_bounding caps all_cap_numbers ;;;
  let data0 := {| cd_effective := to_u32 (fst (effective caps));
                  cd_permitted := to_u32 (fst (permitted caps));
                  cd_inheritable := to_u32 (fst (inheritable caps)) |} in
  let data1 := {| cd_effective := to_u32 (snd (effective caps));
                  cd_permitted := to_u32 (snd (permitted caps));
                  cd_inheritable := to_u32 (snd (inheritable caps)) |} in
  r <- sys (sys_capset _LINUX_CAPABILITY_VERSION_3 0 data0 data1) ;;
  (* ret = capset (&hdr, data) < 0; *)
  let ret := if r <? 0 then 1 else 0 in
  if ret <? 0 then
    e <- get_errno ;; v <- crun_static_error e "capset" ;; return_ v
  else
  if no_new_privs then
    r <- sys (sys_prctl PR_SET_NO_NEW_PRIVS 1 0 0 0) ;;
    if r <? 0 then
      e <- get_errno ;; v <- crun_static_error e "no new privs" ;; return_ v
    else return_ 0
  else return_ 0.

End Capabilities.

(* ================================================================== *)
(** * Resource limit setter *)
(* ================================================================== *)

Record rlimit_s := {
  rls_name : string;
  rls_value : Z
}.

Definition rlimits : list rlimit_s :=
  [ {| rls_name := "RLIMIT_AS"; rls_value := RLIMIT_AS |};
    {| rls_name := "RLIMIT_CORE"; rls_value := RLIMIT_CORE |};
    {| rls_name := "RLIMIT_CPU"; rls_value := RLIMIT_CPU |};
    {| rls_name := "RLIMIT_DATA"; rls_value := RLIMIT_DATA |};
    {| rls_name := "RLIMIT_FSIZE"; rls_value := RLIMIT_FSIZE |};
    {| rls_name := "RLIMIT_LOCKS"; rls_value := RLIMIT_LOCKS |};
    {| rls_name := "RLIMIT_MEMLOCK"; rls_value := RLIMIT_MEMLOCK |};
    {| rls_name := "RLIMIT_MSGQUEUE"; rls_value := RLIMIT_MSGQUEUE |};
    {| rls_name := "RLIMIT_NICE"; rls_value := RLIMIT_NICE |};
    {| rls_name := "RLIMIT_NOFILE"; rls_value := RLIMIT_NOFILE |};
    {| rls_name := "RLIMIT_NPROC"; rls_value := RLIMIT_NPROC |};
    {| rls_name := "RLIMIT_RSS"; rls_value := RLIMIT_RSS |};
    {| rls_name := "RLIMIT_RTPRIO"; rls_value := RLIMIT_RTPRIO |};
    {| rls_name := "RLIMIT_RTTIME"; rls_value := RLIMIT_RTTIME |};
    {| rls_name := "RLIMIT_SIGPENDING"; rls_value := RLIMIT_SIGPENDING |};
    {| rls_name := "RLIMIT_STACK"; rls_value := RLIMIT_STACK |} ].

Fixpoint get_rlimit_resource_from (it : list rlimit_s) (name : string) : Z :=
  match it with
  | [] => -1
  | e :: it' =>
      if strcmp (rls_name e) name =? 0 then rls_value e
      else get_rlimit_resource_from it' name
  end.

Definition get_rlimit_resource (name : string) : Z :=
  get_rlimit_resource_from rlimits name.

Fixpoint set_rlimits_loop (l : list oci_rlimit) : M unit :=
  match l with
  | [] => pure tt
  | rl :: rest =>
      let type := rl_type rl in
      let resource := get_rlimit_resource type in
      if resource <? 0 then
        v <- crun_static_error 0 ("invalid rlimit '" +++ type +++ "'") ;; return_ v
      else
        r <- sys (sys_setrlimit resource (rl_soft rl) (rl_hard rl)) ;;
        if r <? 0 then
          e <- get_errno ;;
          v <- crun_static_error e ("setrlimit '" +++ type +++ "'") ;; return_ v
        else set_rlimits_loop rest
  end.

(** The body ends with the loop: there is no [return] after it. *)
Definition libcrun_set_rlimits : M unit :=
  c <- get_container ;;
  match process_rlimits (container_def c) with
  | None => return_ 0
  | Some l => set_rlimits_loop l
  end.

End Environment.

(* ================================================================== *)
(** * Capability names *)
(* ================================================================== *)

(** [process.capabilities] and [process.noNewPrivileges] of the container
    definition, which [libcrun_set_caps] reads. *)
Record oci_capabilities := {
  cap_effective : list string;
  cap_permitted : list string;
  cap_inheritable : list string;
  cap_ambient : list string;
  cap_bounding : list string
}.

Record oci_process := {
  process_capabilities : option oci_capabilities;
  process_no_new_privileges : bool
}.

Section CapabilityNames.

Variable os : oracle.

(** <linux/capability.h> *)
Variable CAP_LAST_CAP : Z.

(** [cap_from_name] of libcap: the number of the capability a name stands
    for, [None] where the C function returns a negative value. *)
Variable cap_from_name : string -> option Z.

(** [caps] is the two-word array the function updates in place: the pair
    returned is the function's value and the array as the function leaves
    it.  The message of an unknown name is stored through [err] by
    [xasprintf], without a status. *)
Fixpoint read_caps (caps : Z * Z) (values : list string) : M (Z * (Z * Z)) :=
  match values with
  | [] => pure (0, caps)
  | v :: rest =>
      match cap_from_name v with
      | None =>
          put_err {| err_status := 0; err_msg := "unknown cap: " +++ v |} ;;;
          pure (-1, caps)
      | Some cap =>
          if cap <? 32 then
            read_caps (Z.lor (fst caps) (CAP_TO_MASK_0 cap), snd caps) rest
          else
            read_caps (fst caps, Z.lor (snd caps) (CAP_TO_MASK_1 cap)) rest
      end
  end.

(** The process part of the definition, which the container record above
    does not carry, is an argument. *)
Definition libcrun_set_caps (process : oci_process) : M unit :=
  let zero := (0, 0) in
  match process_capabilities process with
  | Some capabilities =>
      r <- read_caps zero (cap_effective capabilities) ;;
      if fst r <? 0 then return_ (fst r) else
      let effective := snd r in
      r <- read_caps zero (cap_inheritable capabilities) ;;
      if fst r <? 0 then return_ (fst r) else
      let inheritable := snd r in
      r <- read_caps zero (cap_ambient capabilities) ;;
      if fst r <? 0 then return_ (fst r) else
      let ambient := snd r in
      r <- read_caps zero (cap_bounding capabilities) ;;
      if fst r <? 0 then return_ (fst r) else
      let bounding := snd r in
      r <- read_caps zero (cap_permitted capabilities) ;;
      if fst r <? 0 then return_ (fst r) else
      let permitted := snd r in
      v <- invoke os (set_required_caps os CAP_LAST_CAP
                     {| effective := effective; permitted := permitted;
                        inheritable := inheritable; ambient := ambient;
                        bounding := bounding |}
                     (process_no_new_privileges process)) ;;
      return_ v
  | None =>
      v <- invoke os (set_required_caps os CAP_LAST_CAP
                     {| effective := zero; permitted := zero;
                        inheritable := zero; ambient := zero;
                        bounding := zero |}
                     (process_no_new_privileges process)) ;;
      return_ v
  end.

End CapabilityNames.

(* ================================================================== *)
(** * Vocabulary of the properties *)
(* ================================================================== *)

(** ** States reached by a call and by an error exit *)

(** The state after a failing [crun_static_error] exit. *)
Definition with_err (s : state) (status : Z) (msg : string) : state :=
  {| container := container s; errno := errno s;
     err := Some {| err_status := status; err_msg := msg |};
     trace := trace s |}.

(** The state after a call [c] answered by [os]. *)
Definition after_call (os : oracle) (s : state) (c : call) : state :=
  {| container := container s;
     errno := if rv (os (trace s) c) <? 0 then rerrno (os (trace s) c) else errno s;
     err := err s;
     trace := trace s ++ [c] |}.

(** ** What a computation does to the trace and how it ends *)

(** [adds P m]: whatever the state and the environment, [m] leaves the
    container record alone and appends to the trace only calls that satisfy
    [P]. *)
Definition adds {A} (P : call -> Prop) (m : M A) : Prop :=
  forall s,
    container (snd (m s)) = container s /\
    exists added, trace (snd (m s)) = trace s ++ added /\ Forall P added.


(** [returns_only Q m]: every [return] that [m] can take returns a value
    that satisfies [Q]. *)
Definition returns_only {A} (Q : Z -> Prop) (m : M A) : Prop :=
  forall s r s', m s = (Stop r, s') -> exists v, r = Value v /\ Q v.

Definition negative (v : Z) : Prop := v < 0.

(** A computation that goes to its end, stores no error and only appends
    to the trace. *)
Definition passes (m : M unit) : Prop :=
  forall s, exists s',
    m s = (Normal tt, s') /\ err s' = err s /\
    exists added, trace s' = trace s ++ added.

(** ** Namespace isolator *)

(** The type names of section 4.1, each with the kernel flag of its
    namespace. *)
Definition namespace_flags : list (string * Z) :=
  [ ("mount", CLONE_NEWNS);
    ("cgroup", CLONE_NEWCGROUP);
    ("network", CLONE_NEWNET);
    ("ipc", CLONE_NEWIPC);
    ("pid", CLONE_NEWPID);
    ("uts", CLONE_NEWUTS);
    ("user", CLONE_NEWUSER) ]%string.

Definition namespace_types : list string := map fst namespace_flags.

Definition kernel_flag (type : string) : Z :=
  match find (fun p => String.eqb (fst p) type) namespace_flags with
  | Some (_, f) => f
  | None => 0
  end.

(** The union of the kernel flags of the requests' types. *)
Definition union_of_flags (l : list oci_namespace) : Z :=
  fold_left Z.lor (map (fun ns => kernel_flag (ns_type ns)) l) 0.

Definition is_unshare (c : call) : Prop :=
  match c with
  | sys_unshare _ => True
  | _ => False
  end.

(** ** Mount plan executor and root transition *)

(** The option names of section 4.2 with the flag each stands for. *)
Definition documented_option_flags : list (string * Z) :=
  [ ("rshared", Z.lor MS_REC MS_SHARED);
    ("rslave", Z.lor MS_REC MS_SLAVE);
    ("rprivate", Z.lor MS_REC MS_PRIVATE);
    ("shared", MS_SHARED);
    ("slave", MS_SLAVE);
    ("private", MS_PRIVATE);
    ("unbindable", MS_UNBINDABLE);
    ("nosuid", MS_NOSUID);
    ("noexec", MS_NOEXEC);
    ("nodev", MS_NODEV);
    ("dirsync", MS_DIRSYNC);
    ("lazytime", MS_LAZYTIME);
    ("nodiratime", MS_NODIRATIME);
    ("noatime", MS_NOATIME);
    ("ro", MS_RDONLY);
    ("relatime", MS_RELATIME);
    ("strictatime", MS_STRICTATIME);
    ("synchronous", MS_SYNCHRONOUS) ]%string.

Definition option_names : list string := map fst documented_option_flags.

Definition known_option (name : string) : bool :=
  existsb (String.eqb name) option_names.

Definition documented_flag (name : string) : Z :=
  match find (fun p => String.eqb (fst p) name) documented_option_flags with
  | Some (_, f) => f
  | None => 0
  end.

(** The union of the documented flags of a list of known tokens. *)
Definition flags_of (tokens : list string) : Z :=
  fold_right (fun name acc => Z.lor (documented_flag name) acc) 0 tokens.

(** The tokens joined with commas; no string at all when there is none. *)
Definition comma_join (tokens : list string) : option string :=
  match tokens with
  | [] => None
  | _ => Some (String.concat "," tokens)
  end.

(** What the tokens [l] add behind a data string that already exists. *)
Definition comma_tail (l : list string) : string :=
  fold_right (fun name acc => "," +++ name +++ acc) ""%string l.

(** The data string after the unknown tokens [l] were appended to [data]. *)
Definition append_tokens (data : option string) (l : list string) : option string :=
  match data, l with
  | None, [] => None
  | None, x :: l' => Some (x +++ comma_tail l')
  | Some prev, _ => Some (prev +++ comma_tail l)
  end.

(** The destination-keyed table of section 4.2; [privileged] is
    [hostUid == 0]. *)
Definition default_mount_table (privileged : bool)
  : list (string * (Z * option string)) :=
  [ ("/proc", (0, None));
    ("/dev/cgroup",
     (Z.lor MS_NOEXEC (Z.lor MS_NOSUID MS_STRICTATIME), Some "none,name="));
    ("/sys/fs/cgroup",
     (Z.lor MS_NOEXEC (Z.lor MS_NOSUID MS_STRICTATIME), Some "none,name="));
    ("/dev", (Z.lor MS_NOEXEC MS_STRICTATIME, Some "mode=755"));
    ("/dev/shm",
     (Z.lor MS_NOEXEC (Z.lor MS_NOSUID MS_NODEV), Some "mode=1777,size=65536k"));
    ("/dev/mqueue", (Z.lor MS_NOEXEC (Z.lor MS_NOSUID MS_NODEV), None));
    ("/dev/pts",
     (Z.lor MS_NOEXEC MS_NOSUID,
      Some ("newinstance,ptmxmode=0666,mode=620"
            +++ if privileged then ",gid=5" else "")));
    ("/sys", (Z.lor MS_NOEXEC (Z.lor MS_NOSUID MS_NODEV), None)) ]%string.

Definition documented_default (privileged : bool) (destination : string)
  : Z * option string :=
  match find (fun p => String.eqb (fst p) destination)
             (default_mount_table privileged) with
  | Some (_, d) => d
  | None => (0, None)
  end.

(** What section 4.2 asks of the flag word of a mount call: the read-only
    bit is clear, and the bind bit is set when the type is "bind". *)
Definition mount_call_ok (c : call) : Prop :=
  match c with
  | sys_mount _ _ fstype flags _ =>
      Z.land flags MS_RDONLY = 0 /\
      (fstype = "bind"%string -> Z.land flags MS_BIND = MS_BIND)
  | _ => True
  end.

(** The propagation flags [libcrun_set_mounts] derives from the definition:
    recursive slave when no mode is named, the documented flag of a name of
    the table, and no flag at all for any other name. *)
Definition root_propagation (def : oci_container) : Z :=
  match linux_rootfs_propagation def with
  | None => Z.lor MS_REC MS_SLAVE
  | Some name => if known_option name then documented_flag name else 0
  end.

(** ** Identity mapper and capability manager *)

(** The files written by the calls of a trace, in order. *)
Definition written_files (tr : list call) : list string :=
  flat_map (fun c => match c with
                     | write_file path _ _ => [path]
                     | _ => []
                     end) tr.

Definition is_capset (c : call) : bool :=
  match c with
  | sys_capset _ _ _ _ => true
  | _ => false
  end.

(** An environment in which [capset] always fails and every other call
    succeeds. *)
Definition only_capset_fails (os : oracle) : Prop :=
  forall tr c, if is_capset c then rv (os tr c) < 0 else 0 <= rv (os tr c).

(** The two words handed to [capset]. *)
Definition capset_call (caps : all_caps_s) : call :=
  sys_capset _LINUX_CAPABILITY_VERSION_3 0
    {| cd_effective := to_u32 (fst (effective caps));
       cd_permitted := to_u32 (fst (permitted caps));
       cd_inheritable := to_u32 (fst (inheritable caps)) |}
    {| cd_effective := to_u32 (snd (effective caps));
       cd_permitted := to_u32 (snd (permitted caps));
       cd_inheritable := to_u32 (snd (inheritable caps)) |}.

(** ** Environments and inputs of the sample runs *)

(** An environment in which every call succeeds, with value 0. *)
Definition os_ok : oracle := fun _ _ => {| rv := 0; rerrno := 0 |}.


(** An environment in which every call succeeds but [capset], which the
    kernel refuses with [EPERM]. *)
Definition os_capset_eperm : oracle :=
  fun _ c =>
    if is_capset c then {| rv := -1; rerrno := EPERM |}
    else {| rv := 0; rerrno := 0 |}.

Definition s_bad_namespace : state :=
  {| container :=
       {| container_def :=
            {| linux_namespaces :=
                 [ {| ns_type := "pid"; ns_path := None |};
                   {| ns_type := "time"; ns_path := None |};
                   {| ns_type := "mount"; ns_path := None |} ];
               linux_rootfs_propagation := None;
               root_path := "rootfs";
               mounts := [];
               process_rlimits := None |};
          host_uid := 1000; host_gid := 1000; unshare_flags := 0 |};
     errno := 0; err := None; trace := [] |}.

Definition s_namespaces : state :=
  {| container :=
       {| container_def :=
            {| linux_namespaces :=
                 [ {| ns_type := "pid"; ns_path := None |};
                   {| ns_type := "network"; ns_path := Some "/proc/1/ns/net"%string |};
                   {| ns_type := "mount"; ns_path := None |} ];
               linux_rootfs_propagation := None;
               root_path := "rootfs";
               mounts := [];
               process_rlimits := None |};
          host_uid := 1000; host_gid := 1000; unshare_flags := 0 |};
     errno := 0; err := None; trace := [] |}.



Definition s_plan (uid : Z) : state :=
  {| container :=
       {| container_def :=
            {| linux_namespaces := [];
               linux_rootfs_propagation := None;
               root_path := "rootfs";
               mounts :=
                 [ {| mnt_destination := "/proc"; mnt_source := None;
                      mnt_type := "proc"; mnt_options := None |};
                   {| mnt_destination := "/dev/pts"; mnt_source := None;
                      mnt_type := "devpts"; mnt_options := None |} ];
               process_rlimits :=
                 Some [ {| rl_type := "RLIMIT_NOFILE"; rl_soft := 100;
                           rl_hard := 200 |} ] |};
          host_uid := uid; host_gid := uid; unshare_flags := 0 |};
     errno := 0; err := None; trace := [] |}.

Definition caps_net_bind : all_caps_s :=
  {| effective := (Z.shiftl 1 10, 0);
     permitted := (Z.shiftl 1 10, 0);
     inheritable := (Z.shiftl 1 10, 0);
     ambient := (Z.shiftl 1 10, 0);
     bounding := (Z.shiftl 1 10, 0) |}.

(* ================================================================== *)
(** * Vocabulary of the further properties *)
(* ================================================================== *)

(** An environment in which every call succeeds.  [leftover_value] is no
    call, and nothing is asked of the answer to it. *)
Definition all_succeed (os : oracle) : Prop :=
  forall tr c, c <> leftover_value -> 0 <= rv (os tr c).

(** The state after the calls [l], made one after the other. *)
Definition after_calls (os : oracle) (s : state) (l : list call) : state :=
  fold_left (after_call os) l s.

(** The paths opened by the calls of a trace, in order. *)
Definition opened_paths (tr : list call) : list (option string) :=
  flat_map (fun c => match c with
                     | sys_open path _ => [path]
                     | _ => []
                     end) tr.


(** The calls [l], made one after the other from the trace [tr], all
    succeed. *)
Fixpoint calls_succeed (os : oracle) (tr : list call) (l : list call) : Prop :=
  match l with
  | [] => True
  | c :: l' => 0 <= rv (os tr c) /\ calls_succeed os (tr ++ [c]) l'
  end.

(** The names of the table of resource limits. *)
Definition rlimit_names : list string := map rls_name rlimits.

(** The call that applies a request. *)
Definition rlimit_call (rl : oci_rlimit) : call :=
  sys_setrlimit (get_rlimit_resource (rl_type rl)) (rl_soft rl) (rl_hard rl).

(** A state with another list of resource limits. *)
Definition with_rlimits (s : state) (l : option (list oci_rlimit)) : state :=
  {| container :=
       {| container_def :=
            {| linux_namespaces := linux_namespaces (container_def (container s));
               linux_rootfs_propagation :=
                 linux_rootfs_propagation (container_def (container s));
               root_path := root_path (container_def (container s));
               mounts := mounts (container_def (container s));
               process_rlimits := l |};
          host_uid := host_uid (container s);
          host_gid := host_gid (container s);
          unshare_flags := unshare_flags (container s) |};
     errno := errno s; err := err s; trace := trace s |}.


(** An environment in which the limit of open files cannot be set. *)
Definition os_nofile_eperm : oracle :=
  fun _ c =>
    match c with
    | sys_setrlimit 7 _ _ => {| rv := -1; rerrno := EPERM |}
    | _ => {| rv := 0; rerrno := 0 |}
    end.

Definition rl_core : oci_rlimit :=
  {| rl_type := "RLIMIT_CORE"; rl_soft := 0; rl_hard := 0 |}.

Definition rl_nofile : oci_rlimit :=
  {| rl_type := "RLIMIT_NOFILE"; rl_soft := 100; rl_hard := 200 |}.

Definition rl_bogus : oci_rlimit :=
  {| rl_type := "BOGUS"; rl_soft := 1; rl_hard := 1 |}.

(** The calls [do_mounts] makes for a request when nothing fails: the
    creation of the target directory, then the mount unless the type is
    "cgroup". *)
Definition mount_calls (c : crun_container) (rootfs : option string) (m : oci_mount)
  : list call :=
  ensure_directory (mount_target rootfs m) mode_0755 ::
  if strcmp (mnt_type m) "cgroup" =? 0 then []
  else [ sys_mount (match mnt_source m with Some s => s | None => mnt_type m end)
                   (Some (mount_target rootfs m)) (mnt_type m)
                   (fst (mount_flags_data c m)) (snd (mount_flags_data c m)) ].

(** A request with another option list. *)
Definition with_options (m : oci_mount) (o : option (list string)) : oci_mount :=
  {| mnt_destination := mnt_destination m; mnt_source := mnt_source m;
     mnt_type := mnt_type m; mnt_options := o |}.

Definition not_ro (o : string) : bool := negb (String.eqb o "ro").

(** A flag word whose bits are all below bit 26. *)
Definition in_26_bits (x : Z) : Prop := Z.land x (Z.ones 26) = x.

(** A state with another mount list. *)
Definition with_mounts (s : state) (l : list oci_mount) : state :=
  {| container :=
       {| container_def :=
            {| linux_namespaces := linux_namespaces (container_def (container s));
               linux_rootfs_propagation :=
                 linux_rootfs_propagation (container_def (container s));
               root_path := root_path (container_def (container s));
               mounts := l;
               process_rlimits := process_rlimits (container_def (container s)) |};
          host_uid := host_uid (container s);
          host_gid := host_gid (container s);
          unshare_flags := unshare_flags (container s) |};
     errno := errno s; err := err s; trace := trace s |}.

Definition m_proc : oci_mount :=
  {| mnt_destination := "/proc"; mnt_source := None;
     mnt_type := "proc"; mnt_options := None |}.

Definition m_data : oci_mount :=
  {| mnt_destination := "/data"; mnt_source := Some "/srv/data"%string;
     mnt_type := "bind"; mnt_options := Some ["ro"; "nosuid"; "uid=7"]%string |}.

Definition m_tmp : oci_mount :=
  {| mnt_destination := "/tmp"; mnt_source := None;
     mnt_type := "tmpfs"; mnt_options := Some ["size=64k"]%string |}.

(** An environment in which bind mounts are refused with [EPERM]. *)
Definition os_bind_eperm : oracle :=
  fun _ c =>
    match c with
    | sys_mount _ _ "bind" _ _ => {| rv := -1; rerrno := EPERM |}
    | _ => {| rv := 0; rerrno := 0 |}
    end.

(** The two descriptors [do_pivot] opens, and the calls that open them. *)
Definition open_oldroot : call :=
  sys_open (Some "/"%string) (Z.lor O_DIRECTORY O_RDONLY).

Definition open_newroot (rootfs : option string) : call :=
  sys_open rootfs (Z.lor O_DIRECTORY O_RDONLY).

Definition oldrootfd (os : oracle) (s : state) : Z :=
  rv (os (trace s) open_oldroot).

Definition newrootfd (os : oracle) (s : state) (rootfs : option string) : Z :=
  rv (os (trace s ++ [open_oldroot]) (open_newroot rootfs)).

(** The closing of a descriptor at the end of its scope. *)
Definition close_calls (fd : Z) : list call :=
  if fd <? 0 then [] else [sys_close fd].

(** The two mounts [libcrun_set_mounts] starts with. *)
Definition remount_call (def : oci_container) : call :=
  sys_mount "" (Some "/"%string) "" (Z.lor MS_REC (root_propagation def)) None.

Definition bind_root_call (def : oci_container) (rootfs : option string) : call :=
  sys_mount (root_path def) rootfs ""
            (Z.lor (Z.lor MS_BIND MS_REC) (root_propagation def)) None.

(** An environment in which no directory can be opened. *)
Definition os_open_enoent : oracle :=
  fun _ c =>
    match c with
    | sys_open _ _ => {| rv := -1; rerrno := 2 |}
    | _ => {| rv := 0; rerrno := 0 |}
    end.

(** An environment that hands out the descriptors 3, 4, ... in turn and in
    which every other call succeeds with 0. *)
Definition os_fds : oracle :=
  fun tr c =>
    match c with
    | sys_open _ _ => {| rv := 3 + Z.of_nat (length (opened_paths tr)); rerrno := 0 |}
    | _ => {| rv := 0; rerrno := 0 |}
    end.

(** The writes of the identity mapper when none fails, as the code makes
    them. *)
Definition id_map_writes (c : crun_container) : list call :=
  if host_uid c =? 0 then
    [ write_file "/proc/self/setgroups" "deny" 4;
      write_file "/proc/self/uid_map" "0 0 65536" 9 ]
  else
    [ write_file "/proc/self/setgroups" "deny" 4;
      write_file "/proc/self/gid_map" ("0 " +++ fmt_d (host_gid c) +++ " 1")
                 (strlen ("0 " +++ fmt_d (host_gid c) +++ " 1"));
      write_file "/proc/self/uid_map" ("0 " +++ fmt_d (host_uid c) +++ " 1")
                 (strlen ("0 " +++ fmt_d (host_uid c) +++ " 1")) ].

(** A write to one of the three files of the identity mapper, with the
    length of its content. *)
Definition id_map_write (c : call) : Prop :=
  match c with
  | write_file path content len =>
      len = strlen content /\
      In path ["/proc/self/setgroups"; "/proc/self/gid_map"; "/proc/self/uid_map"]%string
  | _ => False
  end.

(** An environment in which /proc/self/gid_map cannot be written. *)
Definition os_gid_map_eperm : oracle :=
  fun _ c =>
    match c with
    | write_file "/proc/self/gid_map" _ _ => {| rv := -1; rerrno := EPERM |}
    | _ => {| rv := 0; rerrno := 0 |}
    end.

(** An environment in which the bind mount of the root is refused. *)
Definition os_bind_root_eperm : oracle :=
  fun tr c =>
    match c with
    | sys_mount _ _ _ _ _ =>
        match tr with
        | [] => {| rv := 0; rerrno := 0 |}
        | _ => {| rv := -1; rerrno := EPERM |}
        end
    | _ => {| rv := 0; rerrno := 0 |}
    end.

(** Bit [cap] of a two-word capability mask. *)
Definition cap_in (mask : Z * Z) (cap : Z) : bool :=
  if cap <? 32 then Z.testbit (fst mask) cap else Z.testbit (snd mask) (cap - 32).

Definition ambient_clear_call : call :=
  sys_prctl PR_CAP_AMBIENT PR_CAP_AMBIENT_CLEAR_ALL 0 0 0.

Definition ambient_raise_call (cap : Z) : call :=
  sys_prctl PR_CAP_AMBIENT PR_CAP_AMBIENT_RAISE cap 0 0.

Definition bounding_drop_call (cap : Z) : call :=
  sys_prctl PR_CAPBSET_DROP cap 0 0 0.

Definition no_new_privs_call : call :=
  sys_prctl PR_SET_NO_NEW_PRIVS 1 0 0 0.

(** The calls on the ambient and on the bounding set. *)
Definition best_effort (c : call) : bool :=
  match c with
  | sys_prctl o _ _ _ _ => (o =? PR_CAP_AMBIENT) || (o =? PR_CAPBSET_DROP)
  | _ => false
  end.

(** An environment in which a call either succeeds or is a call on the
    ambient or the bounding set that fails with [EINVAL] or [EPERM]. *)
Definition tolerable (os : oracle) : Prop :=
  forall tr c,
    0 <= rv (os tr c) \/
    (best_effort c = true /\
     (rerrno (os tr c) = EINVAL \/ rerrno (os tr c) = EPERM)).

(** The calls of [set_required_caps] in such an environment. *)
Definition required_caps_calls (last_cap : Z) (caps : all_caps_s) (no_new_privs : bool)
  : list call :=
  ambient_clear_call ::
  map ambient_raise_call
      (filter (cap_in (ambient caps)) (all_cap_numbers last_cap)) ++
  map bounding_drop_call
      (filter (fun cap => negb (cap_in (bounding caps) cap)) (all_cap_numbers last_cap)) ++
  capset_call caps ::
  (if no_new_privs then [no_new_privs_call] else []).

(** What [set_required_caps] may call at all. *)
Definition required_caps_call (last_cap : Z) (caps : all_caps_s) (no_new_privs : bool)
                              (c : call) : Prop :=
  c = ambient_clear_call \/
  (exists cap, c = ambient_raise_call cap /\ 0 <= cap <= last_cap) \/
  (exists cap, c = bounding_drop_call cap /\ 0 <= cap <= last_cap) \/
  c = capset_call caps \/
  (c = no_new_privs_call /\ no_new_privs = true).

Definition zero_caps : all_caps_s :=
  {| effective := (0, 0); permitted := (0, 0); inheritable := (0, 0);
     ambient := (0, 0); bounding := (0, 0) |}.

(** All the names of a capabilities section, in the order in which
    [libcrun_set_caps] reads the five sets. *)
Definition capability_names (c : oci_capabilities) : list string :=
  cap_effective c ++ cap_inheritable c ++ cap_ambient c ++ cap_bounding c
  ++ cap_permitted c.

(** An environment in which the ambient set is not supported ([EINVAL]) and
    the bounding set cannot be changed ([EPERM]). *)
Definition os_unprivileged : oracle :=
  fun _ c =>
    match c with
    | sys_prctl 47 _ _ _ _ => {| rv := -1; rerrno := EINVAL |}
    | sys_prctl 24 _ _ _ _ => {| rv := -1; rerrno := EPERM |}
    | _ => {| rv := 0; rerrno := 0 |}
    end.

(** A part of the name table of libcap. *)
Definition cap_names_sample (name : string) : option Z :=
  if String.eqb name "CAP_CHOWN" then Some 0
  else if String.eqb name "CAP_KILL" then Some 5
  else if String.eqb name "CAP_NET_BIND_SERVICE" then Some 10
  else if String.eqb name "CAP_SYSLOG" then Some 34
  else None.

(** Does a name of the list stand for capability [k]? *)
Definition names_cap (cap_from_name : string -> option Z) (values : list string)
                     (k : Z) : bool :=
  existsb (fun v => match cap_from_name v with
                    | Some cap => cap =? k
                    | None => false
                    end) values.

(** Every name of the list stands for a capability below 64. *)
Definition all_resolve (cap_from_name : string -> option Z) (values : list string)
  : Prop :=
  forall v, In v values -> exists cap, cap_from_name v = Some cap /\ 0 <= cap < 64.

Definition caps_sample : oci_capabilities :=
  {| cap_effective := ["CAP_CHOWN"; "CAP_NET_BIND_SERVICE"]%string;
     cap_permitted := ["CAP_CHOWN"; "CAP_NET_BIND_SERVICE"; "CAP_SYSLOG"]%string;
     cap_inheritable := [];
     cap_ambient := ["CAP_NET_BIND_SERVICE"]%string;
     cap_bounding := ["CAP_CHOWN"; "CAP_KILL"; "CAP_NET_BIND_SERVICE"; "CAP_SYSLOG"]%string |}.

Definition caps_typo : oci_capabilities :=
  {| cap_effective := ["CAP_CHOWN"]%string;
     cap_permitted := ["CAP_CHOWN"]%string;
     cap_inheritable := [];
     cap_ambient := [];
     cap_bounding := ["CAP_CHOWN"; "CAP_KIL"]%string |}.

(** An environment in which the clearing of the ambient set fails for want
    of memory ([ENOMEM]). *)
Definition os_clear_enomem : oracle :=
  fun _ c =>
    match c with
    | sys_prctl 47 4 _ _ _ => {| rv := -1; rerrno := 12 |}
    | _ => {| rv := 0; rerrno := 0 |}
    end.





(** The calls that join the namespaces of the requests [l] from the trace
    [tr], when each call succeeds: for a request with a path, the open of
    the path, the [setns] of the descriptor that this open returned to the
    namespace of the request's type, and the closing of that descriptor. *)
Fixpoint join_calls (os : oracle) (tr : list call) (l : list oci_namespace)
  : list call :=
  match l with
  | [] => []
  | ns :: rest =>
      match ns_path ns with
      | None => join_calls os tr rest
      | Some path =>
          let fd := rv (os tr (sys_open (Some path) O_RDONLY)) in
          let block := [ sys_open (Some path) O_RDONLY;
                         sys_setns fd (kernel_flag (ns_type ns));
                         sys_close fd ] in
          block ++ join_calls os (tr ++ block) rest
      end
  end.

(** The calls of [do_pivot] from the state [s] when none fails. *)
Definition pivot_calls (os : oracle) (s : state) (rootfs : option string)
  : list call :=
  [ open_oldroot; open_newroot rootfs;
    sys_fchdir (newrootfd os s rootfs);
    sys_pivot_root "." ".";
    sys_fchdir (oldrootfd os s);
    sys_mount "" (Some "."%string) "" (Z.lor MS_PRIVATE MS_REC) (Some ""%string);
    sys_umount2 "." MNT_DETACH;
    sys_chdir "/";
    sys_close (newrootfd os s rootfs);
    sys_close (oldrootfd os s) ].

(** The calls of [libcrun_set_mounts] up to the end of the mount plan when
    none fails: the two mounts of the root, then the calls of the plan. *)
Definition root_and_plan_calls (c : crun_container) (rootfs : option string)
  : list call :=
  remount_call (container_def c) :: bind_root_call (container_def c) rootfs ::
  flat_map (mount_calls c rootfs) (mounts (container_def c)).

(** The file a write names. *)
Definition written_path (c : call) : string :=
  match c with
  | write_file path _ _ => path
  | _ => ""
  end.

(* ================================================================== *)
(** * Basic facts *)
(* ================================================================== *)

Lemma compare_refl (a : string) : String.compare a a = Eq.
Proof.
  pose proof (String.compare_antisym a a) as H.
  destruct (String.compare a a); simpl in H; congruence.
Qed.

Lemma strcmp_eqb (a b : string) : (strcmp a b =? 0) = String.eqb a b.
Proof.
  unfold strcmp.
  destruct (String.compare a b) eqn:E.
  - apply String.compare_eq_iff in E. subst. now rewrite String.eqb_refl.
  - destruct (String.eqb_spec a b) as [->|_]; [|reflexivity].
    rewrite compare_refl in E. discriminate.
  - destruct (String.eqb_spec a b) as [->|_]; [|reflexivity].
    rewrite compare_refl in E. discriminate.
Qed.

Lemma append_assoc (a b c : string) : (a +++ b) +++ c = a +++ (b +++ c).
Proof. induction a as [|x a IH]; simpl; [reflexivity | now rewrite IH]. Qed.

(** Case analysis on the next [strcmp (...) name == 0] test of a goal. *)
Ltac strcmp_case :=
  rewrite strcmp_eqb;
  match goal with
  | |- context [String.eqb ?a ?b] =>
      destruct (String.eqb_spec a b) as [?|?]; [try subst|]
  end.

Lemma bind_normal {A B} (m : M A) (k : A -> M B) s a s' :
  m s = (Normal a, s') -> bind m k s = k a s'.
Proof. intros H. unfold bind. now rewrite H. Qed.

Lemma bind_stop {A B} (m : M A) (k : A -> M B) s r s' :
  m s = (Stop r, s') -> bind m k s = (Stop r, s').
Proof. intros H. unfold bind. now rewrite H. Qed.

Lemma bind_get_container {B} (k : crun_container -> M B) s :
  bind get_container k s = k (container s) s.
Proof. reflexivity. Qed.

Lemma bind_get_errno {B} (k : Z -> M B) s : bind get_errno k s = k (errno s) s.
Proof. reflexivity. Qed.

Lemma sys_eq os c s : sys os c s = (Normal (rv (os (trace s) c)), after_call os s c).
Proof. reflexivity. Qed.

(** ** What a computation adds to the trace *)

Lemma adds_nothing {A} (P : call -> Prop) (m : M A) :
  (forall s, container (snd (m s)) = container s /\ trace (snd (m s)) = trace s) ->
  adds P m.
Proof.
  intros H s. destruct (H s) as [Hc Ht]. split; [assumption|].
  exists []. rewrite app_nil_r. split; [assumption|constructor].
Qed.

Lemma adds_pure {A} P (a : A) : adds P (pure a).
Proof. apply adds_nothing. intros s. now split. Qed.

Lemma adds_return {A} P v : adds P (@return_ A v).
Proof. apply adds_nothing. intros s. now split. Qed.

Lemma adds_get_container P : adds P get_container.
Proof. apply adds_nothing. intros s. now split. Qed.

Lemma adds_get_errno P : adds P get_errno.
Proof. apply adds_nothing. intros s. now split. Qed.

Lemma adds_put_err P e : adds P (put_err e).
Proof. apply adds_nothing. intros s. now split. Qed.

Lemma adds_bind {A B} P (m : M A) (k : A -> M B) :
  adds P m -> (forall a, adds P (k a)) -> adds P (bind m k).
Proof.
  intros Hm Hk s. unfold bind.
  destruct (Hm s) as [Hc [a1 [Ht Hf]]].
  destruct (m s) as [[a|r] s1]; simpl in *.
  - destruct (Hk a s1) as [Hc2 [a2 [Ht2 Hf2]]].
    split; [congruence|].
    exists (a1 ++ a2). rewrite Ht2, Ht, app_assoc. split; [reflexivity|].
    apply Forall_app. now split.
  - split; [assumption|]. now exists a1.
Qed.

Lemma adds_static_error P status msg : adds P (crun_static_error status msg).
Proof.
  unfold crun_static_error. apply adds_bind; [apply adds_put_err|].
  intros _. apply adds_pure.
Qed.

Lemma adds_sys os (P : call -> Prop) c : P c -> adds P (sys os c).
Proof.
  intros H s. split; [reflexivity|].
  exists [c]. split; [reflexivity|]. now constructor.
Qed.

Lemma adds_scoped {A} P (body : M A) cleanup :
  adds P body -> adds P cleanup -> adds P (scoped body cleanup).
Proof.
  intros Hb Hc s. unfold scoped.
  destruct (Hb s) as [Hc1 [a1 [Ht1 Hf1]]].
  destruct (body s) as [f s1]; simpl in *.
  destruct (Hc s1) as [Hc2 [a2 [Ht2 Hf2]]].
  split; [congruence|].
  exists (a1 ++ a2). rewrite Ht2, Ht1, app_assoc. split; [reflexivity|].
  apply Forall_app. now split.
Qed.

Lemma adds_invoke os P (body : M unit) : adds P body -> adds P (invoke os body).
Proof.
  intros Hb s. unfold invoke, run.
  destruct (Hb s) as [Hc [a [Ht Hf]]].
  destruct (body s) as [[u|[v|]] s1]; simpl in *; (split; [assumption|]); now exists a.
Qed.

(** Decompose a computation along its binds and tests. *)
Ltac adds_step :=
  match goal with
  | |- adds _ (bind _ _) => apply adds_bind; [|intros ?]
  | |- adds _ (pure _) => apply adds_pure
  | |- adds _ (return_ _) => apply adds_return
  | |- adds _ get_container => apply adds_get_container
  | |- adds _ get_errno => apply adds_get_errno
  | |- adds _ (put_err _) => apply adds_put_err
  | |- adds _ (crun_static_error _ _) => apply adds_static_error
  | |- adds _ (scoped _ _) => apply adds_scoped
  | |- adds _ (invoke _ _) => apply adds_invoke
  | |- adds _ (if ?b then _ else _) => destruct b
  | |- adds _ (match ?o with Some _ => _ | None => _ end) => destruct o
  | |- adds _ (let '(_, _) := ?p in _) => destruct p
  end.

Lemma adds_cleanup_close os (P : call -> Prop) fd :
  (forall fd', P (sys_close fd')) -> adds P (cleanup_close os fd).
Proof.
  intros H. unfold cleanup_close.
  repeat adds_step. now apply adds_sys.
Qed.

Lemma adds_helper os (P : call -> Prop) c path :
  P c -> adds P (helper os c path).
Proof.
  intros H. unfold helper.
  adds_step; [now apply adds_sys|]. repeat adds_step.
Qed.

(* ================================================================== *)
(** * Namespace isolator: properties *)
(* ================================================================== *)

Lemma find_namespace_known name :
  In name namespace_types -> 0 < find_namespace name.
Proof.
  unfold namespace_types. simpl.
  intros H. repeat (destruct H as [<-|H]; [vm_compute; reflexivity|]).
  destruct H.
Qed.

Lemma find_namespace_unknown name :
  ~ In name namespace_types -> find_namespace name = -1.
Proof.
  unfold namespace_types. simpl. intros H.
  unfold find_namespace, namespaces, find_namespace_from. simpl.
  repeat (strcmp_case; [exfalso; tauto|]).
  reflexivity.
Qed.

Lemma namespace_type_dec name :
  {In name namespace_types} + {~ In name namespace_types}.
Proof. apply in_dec, string_dec. Defined.

Lemma set_namespaces_flags_rejects l :
  forall flags s,
    (exists ns, In ns l /\ ~ In (ns_type ns) namespace_types) ->
    exists bad,
      In bad l /\ ~ In (ns_type bad) namespace_types /\
      set_namespaces_flags l flags s =
        (Stop (Value (-1)),
         with_err s 0 ("invalid namespace type: " +++ ns_type bad)).
Proof.
  induction l as [|ns l IH]; intros flags s [x [Hin Hx]].
  - destruct Hin.
  - simpl. destruct (namespace_type_dec (ns_type ns)) as [Hk|Hu].
    + pose proof (find_namespace_known _ Hk) as Hpos.
      destruct (Z.ltb_spec (find_namespace (ns_type ns)) 0); [lia|].
      destruct Hin as [->|Hin]; [contradiction|].
      destruct (IH (Z.lor flags (find_namespace (ns_type ns))) s) as [bad [Hb [Hbu E]]].
      { now exists x. }
      exists bad. split; [now right|]. split; assumption.
    + exists ns. rewrite (find_namespace_unknown _ Hu). simpl.
      split; [now left|]. split; [assumption|reflexivity].
Qed.

Lemma find_namespace_kernel_flag name :
  In name namespace_types -> find_namespace name = kernel_flag name.
Proof.
  unfold namespace_types. simpl.
  intros H. repeat (destruct H as [<-|H]; [reflexivity|]).
  destruct H.
Qed.

Lemma set_namespaces_flags_accepts l :
  forall flags s,
    (forall ns, In ns l -> In (ns_type ns) namespace_types) ->
    set_namespaces_flags l flags s =
      (Normal (fold_left Z.lor (map (fun ns => kernel_flag (ns_type ns)) l) flags), s).
Proof.
  induction l as [|ns l IH]; intros flags s Hall; [reflexivity|].
  simpl.
  pose proof (find_namespace_known _ (Hall ns (or_introl eq_refl))) as Hpos.
  destruct (Z.ltb_spec (find_namespace (ns_type ns)) 0); [lia|].
  rewrite (find_namespace_kernel_flag _ (Hall ns (or_introl eq_refl))).
  apply IH. intros n Hn. apply Hall. now right.
Qed.

Lemma set_namespaces_join_adds os l :
  adds (fun c => ~ is_unshare c) (set_namespaces_join os l).
Proof.
  induction l as [|ns l IH]; simpl.
  - apply adds_pure.
  - destruct (ns_path ns) as [path|]; [|assumption].
    repeat first
      [ assumption
      | apply adds_sys; simpl; tauto
      | apply adds_cleanup_close; simpl; tauto
      | adds_step ].
Qed.

(** C5. A request list with an entry whose type is none of mount, cgroup,
    network, ipc, pid, uts, user makes [libcrun_set_namespaces] fail with the
    error "invalid namespace type: <type>" for such an entry of the list, the
    status of the error being 0; the trace is left as it was: no unshare, nor
    any other call, is attempted. *)
Theorem set_namespaces_invalid_type os s :
  (exists ns, In ns (linux_namespaces (container_def (container s))) /\
              ~ In (ns_type ns) namespace_types) ->
  exists bad,
    In bad (linux_namespaces (container_def (container s))) /\
    ~ In (ns_type bad) namespace_types /\
    run (libcrun_set_namespaces os) s =
      (Value (-1), with_err s 0 ("invalid namespace type: " +++ ns_type bad)) /\
    trace (snd (run (libcrun_set_namespaces os) s)) = trace s.
Proof.
  intros H.
  destruct (set_namespaces_flags_rejects _ 0 s H) as [bad [Hin [Hbad E]]].
  exists bad. split; [assumption|]. split; [assumption|].
  assert (R : run (libcrun_set_namespaces os) s =
              (Value (-1), with_err s 0 ("invalid namespace type: " +++ ns_type bad))).
  { unfold run, libcrun_set_namespaces.
    rewrite bind_get_container.
    now rewrite (bind_stop _ _ _ _ _ E). }
  rewrite R. split; reflexivity.
Qed.

Lemma set_namespaces_invalid_type_witness :
  exists bad,
    In bad (linux_namespaces (container_def (container s_bad_namespace))) /\
    ~ In (ns_type bad) namespace_types /\
    run (libcrun_set_namespaces os_ok) s_bad_namespace =
      (Value (-1),
       with_err s_bad_namespace 0 ("invalid namespace type: " +++ ns_type bad)) /\
    trace (snd (run (libcrun_set_namespaces os_ok) s_bad_namespace)) =
      trace s_bad_namespace.
Proof.
  apply (set_namespaces_invalid_type os_ok s_bad_namespace).
  exists {| ns_type := "time"; ns_path := None |}.
  split; [simpl; tauto|].
  simpl. intros H. repeat (destruct H as [H|H]; [discriminate|]). exact H.
Defined.

Example set_namespaces_rejects_time :
  run (libcrun_set_namespaces os_ok) s_bad_namespace
  = (Value (-1),
     {| container := container s_bad_namespace;
        errno := 0;
        err := Some {| err_status := 0;
                       err_msg := "invalid namespace type: time" |};
        trace := [] |}).
Proof. reflexivity. Qed.

Lemma set_namespaces_recognised os s :
  (forall ns, In ns (linux_namespaces (container_def (container s))) ->
              In (ns_type ns) namespace_types) ->
  let flags := union_of_flags (linux_namespaces (container_def (container s))) in
  let s' := snd (run (libcrun_set_namespaces os) s) in
  container s' = set_unshare_flags (container s) flags /\
  exists rest,
    trace s' = trace s ++ sys_unshare flags :: rest /\
    Forall (fun c => ~ is_unshare c) rest.
Proof.
  intros Hall. cbv zeta. unfold union_of_flags.
  set (flags := fold_left Z.lor _ 0).
  remember (run (libcrun_set_namespaces os) s) as res eqn:E.
  unfold run, libcrun_set_namespaces in E.
  rewrite bind_get_container in E.
  rewrite (bind_normal _ _ _ _ _ (set_namespaces_flags_accepts _ 0 s Hall)) in E.
  fold flags in E.
  unfold bind at 1 in E. unfold put_container at 1 in E.
  unfold bind at 1 in E. rewrite sys_eq in E. cbn [trace] in E.
  set (s1 := after_call os _ _) in E.
  destruct (rv (os (trace s) (sys_unshare flags)) <? 0).
  - simpl in E. subst res. simpl.
    split; [reflexivity|]. exists []. split; [reflexivity|constructor].
  - destruct (set_namespaces_join_adds os
                (linux_namespaces (container_def (container s))) s1)
      as [Hc [added [Ht Hf]]].
    unfold bind at 1 in E.
    destruct (set_namespaces_join os _ s1) as [[u|r] s2]; simpl in *; subst res;
      simpl; (split; [assumption|]); exists added;
      rewrite Ht, <- app_assoc; now split.
Qed.

(** C6. When every type of the request list is recognised, the first call
    of [libcrun_set_namespaces] is [unshare] with the bitwise OR of the
    kernel flags of all the requests' types, whether or not a request
    carries a path; it is the only [unshare] of the run, and the same value
    is what the field [unshare_flags] of the container holds afterwards, the
    other fields of the container being as they were. *)
Theorem set_namespaces_unshare_flags os s :
  (forall ns, In ns (linux_namespaces (container_def (container s))) ->
              In (ns_type ns) namespace_types) ->
  let flags := union_of_flags (linux_namespaces (container_def (container s))) in
  let s' := snd (run (libcrun_set_namespaces os) s) in
  container s' = set_unshare_flags (container s) flags /\
  unshare_flags (container s') = flags /\
  container_def (container s') = container_def (container s) /\
  host_uid (container s') = host_uid (container s) /\
  host_gid (container s') = host_gid (container s) /\
  exists rest,
    trace s' = trace s ++ sys_unshare flags :: rest /\
    Forall (fun c => ~ is_unshare c) rest.
Proof.
  intros Hall. cbv zeta.
  destruct (set_namespaces_recognised os s Hall) as [Hc Hr]. cbv zeta in Hc, Hr.
  split; [exact Hc|].
  rewrite Hc. cbn [set_unshare_flags unshare_flags container_def host_uid host_gid].
  repeat (split; [reflexivity|]).
  exact Hr.
Qed.

Example union_of_flags_example :
  union_of_flags (linux_namespaces (container_def (container s_namespaces)))
  = Z.lor CLONE_NEWPID (Z.lor CLONE_NEWNET CLONE_NEWNS).
Proof. reflexivity. Qed.

Lemma set_namespaces_unshare_flags_witness :
  let s := s_namespaces in
  let flags := union_of_flags (linux_namespaces (container_def (container s))) in
  let s' := snd (run (libcrun_set_namespaces os_ok) s) in
  container s' = set_unshare_flags (container s) flags /\
  unshare_flags (container s') = flags /\
  container_def (container s') = container_def (container s) /\
  host_uid (container s') = host_uid (container s) /\
  host_gid (container s') = host_gid (container s) /\
  exists rest,
    trace s' = trace s ++ sys_unshare flags :: rest /\
    Forall (fun c => ~ is_unshare c) rest.
Proof.
  apply (set_namespaces_unshare_flags os_ok s_namespaces).
  simpl. intros ns H.
  repeat (destruct H as [<-|H]; [simpl; tauto|]). destruct H.
Defined.

(* ================================================================== *)
(** * Mount plan executor: properties *)
(* ================================================================== *)

Lemma known_option_iff name : known_option name = true <-> In name option_names.
Proof.
  unfold known_option. rewrite existsb_exists. split.
  - intros [x [Hin Heq]]. apply String.eqb_eq in Heq. now subst.
  - intros H. exists name. split; [assumption|apply String.eqb_refl].
Qed.

Lemma get_mount_flags_documented name f :
  In (name, f) documented_option_flags ->
  get_mount_flags name = f /\ documented_flag name = f /\ f <> 0.
Proof.
  unfold documented_option_flags. simpl. intros H.
  repeat (destruct H as [H|H];
          [injection H as <- <-; repeat split; vm_compute; congruence|]).
  destruct H.
Qed.

Lemma get_mount_flags_unknown name :
  ~ In name option_names -> get_mount_flags name = 0.
Proof.
  unfold option_names, documented_option_flags. simpl. intros H.
  unfold get_mount_flags, propagation_flags, get_mount_flags_from. simpl.
  repeat (strcmp_case; [exfalso; tauto|]).
  reflexivity.
Qed.

Lemma option_names_documented name :
  In name option_names -> exists f, In (name, f) documented_option_flags.
Proof.
  unfold option_names. rewrite in_map_iff. intros [[n f] [Heq Hin]].
  simpl in Heq. subst. now exists f.
Qed.

Lemma get_mount_flags_or_option_known name data :
  In name option_names ->
  get_mount_flags_or_option name data = (documented_flag name, data).
Proof.
  intros H. destruct (option_names_documented _ H) as [f Hf].
  destruct (get_mount_flags_documented _ _ Hf) as [Hg [Hd Hnz]].
  unfold get_mount_flags_or_option. rewrite Hg, Hd.
  destruct (Z.eqb_spec f 0); [contradiction|reflexivity].
Qed.

Lemma get_mount_flags_or_option_unknown name data :
  ~ In name option_names ->
  get_mount_flags_or_option name data =
    (0, Some match data with
             | Some prev => prev +++ "," +++ name
             | None => name
             end).
Proof.
  intros H. unfold get_mount_flags_or_option.
  rewrite (get_mount_flags_unknown _ H). simpl. now destruct data.
Qed.

Lemma append_nil_r (a : string) : a +++ "" = a.
Proof. induction a as [|x a IH]; simpl; [reflexivity | now rewrite IH]. Qed.

Lemma concat_comma_tail x l : String.concat "," (x :: l) = x +++ comma_tail l.
Proof.
  revert x. induction l as [|y l IH]; intros x.
  - simpl. now rewrite append_nil_r.
  - change (String.concat "," (x :: y :: l))
      with (x +++ "," +++ String.concat "," (y :: l)).
    now rewrite IH.
Qed.

Lemma fold_mount_options_spec options :
  forall flags data,
    fold_mount_options options flags data =
      (Z.lor flags (flags_of (filter known_option options)),
       append_tokens data (filter (fun o => negb (known_option o)) options)).
Proof.
  induction options as [|o options IH]; intros flags data.
  - simpl. rewrite Z.lor_0_r. destruct data; simpl; [|reflexivity].
    now rewrite append_nil_r.
  - simpl. destruct (known_option o) eqn:K; simpl.
    + apply known_option_iff in K.
      rewrite (get_mount_flags_or_option_known _ _ K), IH.
      now rewrite Z.lor_assoc.
    + assert (U : ~ In o option_names).
      { intros H. apply known_option_iff in H. congruence. }
      rewrite (get_mount_flags_or_option_unknown _ _ U), IH.
      rewrite Z.lor_0_r. f_equal.
      destruct data as [prev|]; simpl; [|reflexivity].
      now rewrite !append_assoc.
Qed.

Lemma append_tokens_none l : append_tokens None l = comma_join l.
Proof.
  destruct l as [|x l]; [reflexivity|].
  unfold append_tokens, comma_join. now rewrite concat_comma_tail.
Qed.

(** C7. Folding an option list: a token of the table of section 4.2 yields
    exactly its documented flag, which is not zero, and leaves the data string
    as it is; a token that is not in the table yields no flag and is appended
    to the data string behind a comma (or starts it); hence the flags of a
    whole list are the union of the documented flags of its known tokens and
    its data string is the comma-joined list of its unknown tokens, in input
    order. *)
Theorem mount_options_partition :
  (forall name f data,
      In (name, f) documented_option_flags ->
      get_mount_flags_or_option name data = (f, data) /\ f <> 0) /\
  (forall name data,
      ~ In name option_names ->
      get_mount_flags_or_option name data =
        (0, Some match data with
                 | Some prev => prev +++ "," +++ name
                 | None => name
                 end)) /\
  (forall options,
      fold_mount_options options 0 None =
        (flags_of (filter known_option options),
         comma_join (filter (fun o => negb (known_option o)) options))).
Proof.
  split; [|split].
  - intros name f data H.
    destruct (get_mount_flags_documented _ _ H) as [Hg [Hd Hnz]].
    split; [|assumption].
    rewrite get_mount_flags_or_option_known, Hd; [reflexivity|].
    unfold option_names. apply in_map_iff. now exists (name, f).
  - apply get_mount_flags_or_option_unknown.
  - intros options.
    now rewrite fold_mount_options_spec, Z.lor_0_l, append_tokens_none.
Qed.

Example fold_mount_options_example :
  fold_mount_options ["nosuid"; "size=64k"; "ro"; "mode=755"; "rprivate"]%string 0 None
  = (Z.lor MS_NOSUID (Z.lor MS_RDONLY (Z.lor MS_REC MS_PRIVATE)),
     Some "size=64k,mode=755"%string).
Proof. reflexivity. Qed.

(** C8. For a request without options the flags and the data string are
    those of the table of section 4.2 under the request's destination, with
    ",gid=5" at the end of the /dev/pts data exactly when the host uid is 0,
    and (0, no data) for a destination the table does not list. *)
Theorem get_default_flags_table c destination :
  get_default_flags c destination None
  = documented_default (host_uid c =? 0) destination
  /\ forall m, mnt_options m = None ->
       mount_flags_data c m
       = (let '(flags, data) :=
            documented_default (host_uid c =? 0) (mnt_destination m) in
          (Z.land (if String.eqb (mnt_type m) "bind"
                   then Z.lor flags MS_BIND else flags)
                  (Z.lnot MS_RDONLY),
           data)).
Proof.
  assert (G : forall d, get_default_flags c d None
                        = documented_default (host_uid c =? 0) d).
  { intros d. unfold get_default_flags, documented_default, default_mount_table.
    rewrite !strcmp_eqb. rewrite !(String.eqb_sym d). cbn [find fst].
    repeat match goal with
           | |- context [String.eqb ?a d] => destruct (String.eqb_spec a d); try subst d
           end; try discriminate; simpl; try reflexivity;
      destruct (host_uid c =? 0); reflexivity. }
  split; [apply G|].
  intros m Hm. unfold mount_flags_data. rewrite Hm, G, strcmp_eqb.
  now destruct (documented_default _ _).
Qed.

Example get_default_flags_dev_pts_root :
  get_default_flags
    {| container_def := container_def (container s_namespaces);
       host_uid := 0; host_gid := 0; unshare_flags := 0 |} "/dev/pts" None
  = (Z.lor MS_NOEXEC MS_NOSUID,
     Some "newinstance,ptmxmode=0666,mode=620,gid=5"%string).
Proof. reflexivity. Qed.

Example get_default_flags_dev_pts_user :
  get_default_flags (container s_namespaces) "/dev/pts" None
  = (Z.lor MS_NOEXEC MS_NOSUID, Some "newinstance,ptmxmode=0666,mode=620"%string).
Proof. reflexivity. Qed.

Example get_default_flags_unlisted :
  get_default_flags (container s_namespaces) "/tmp" None = (0, None).
Proof. reflexivity. Qed.

Lemma run_snd (body : M unit) s : snd (run body s) = snd (body s).
Proof. unfold run. now destruct (body s) as [[u|r] s']. Qed.

Lemma clear_rdonly x : Z.land (Z.land x (Z.lnot MS_RDONLY)) MS_RDONLY = 0.
Proof.
  rewrite <- Z.land_assoc.
  change (Z.land (Z.lnot MS_RDONLY) MS_RDONLY) with 0.
  apply Z.land_0_r.
Qed.

Lemma keep_bind x :
  Z.land (Z.land (Z.lor x MS_BIND) (Z.lnot MS_RDONLY)) MS_BIND = MS_BIND.
Proof.
  rewrite <- Z.land_assoc.
  change (Z.land (Z.lnot MS_RDONLY) MS_BIND) with MS_BIND.
  apply Z.bits_inj'. intros n _.
  rewrite Z.land_spec, Z.lor_spec.
  destruct (Z.testbit x n), (Z.testbit MS_BIND n); reflexivity.
Qed.

Lemma mount_flags_data_ok c m :
  Z.land (fst (mount_flags_data c m)) MS_RDONLY = 0 /\
  (mnt_type m = "bind"%string ->
   Z.land (fst (mount_flags_data c m)) MS_BIND = MS_BIND).
Proof.
  unfold mount_flags_data.
  destruct (match mnt_options m with
            | Some options => fold_mount_options options 0 None
            | None => get_default_flags c (mnt_destination m) None
            end) as [flags data].
  cbn [fst]. split; [apply clear_rdonly|].
  intros ->. rewrite strcmp_eqb, String.eqb_refl. apply keep_bind.
Qed.

Lemma do_mounts_body_adds os rootfs m :
  adds mount_call_ok (do_mounts_body os rootfs m).
Proof.
  unfold do_mounts_body.
  adds_step; [adds_step|].
  adds_step; [apply adds_helper; exact I|].
  adds_step; [adds_step|].
  pose proof (mount_flags_data_ok a m) as [Hro Hbind].
  destruct (mount_flags_data a m) as [flags data]. cbn [fst] in *.
  adds_step; [adds_step|].
  adds_step; [apply adds_sys; now split|].
  repeat adds_step.
Qed.

Lemma do_mounts_loop_adds os rootfs l :
  adds mount_call_ok (do_mounts_loop os rootfs l).
Proof.
  induction l as [|m l IH]; simpl.
  - apply adds_pure.
  - apply adds_bind; [apply do_mounts_body_adds|]. intros _. exact IH.
Qed.

(** C9. Every mount call that [do_mounts] makes carries a flag word without
    the read-only bit, whatever the options or the default table gave, and
    with the bind bit when the type of the call is "bind". *)
Theorem do_mounts_never_read_only os rootfs s :
  exists added,
    trace (snd (run (do_mounts os rootfs) s)) = trace s ++ added /\
    Forall mount_call_ok added.
Proof.
  rewrite run_snd.
  assert (H : adds mount_call_ok (do_mounts os rootfs)).
  { unfold do_mounts. apply adds_bind; [apply adds_get_container|].
    intros c. apply do_mounts_loop_adds. }
  exact (proj2 (H s)).
Qed.

Example mount_flags_data_ro_bind :
  mount_flags_data (container s_namespaces)
    {| mnt_destination := "/data"; mnt_source := Some "/srv/data"%string;
       mnt_type := "bind"; mnt_options := Some ["ro"; "nosuid"; "noatime"]%string |}
  = (Z.lor MS_BIND (Z.lor MS_NOSUID MS_NOATIME), None).
Proof. reflexivity. Qed.

Example mode_0755_value : mode_0755 = 493.
Proof. reflexivity. Qed.



(* ================================================================== *)
(** * Root transition: properties *)
(* ================================================================== *)




Lemma get_mount_flags_resolve name :
  get_mount_flags name = if known_option name then documented_flag name else 0.
Proof.
  destruct (known_option name) eqn:K.
  - apply known_option_iff in K.
    destruct (option_names_documented _ K) as [f Hf].
    destruct (get_mount_flags_documented _ _ Hf) as [Hg [Hd _]]. congruence.
  - apply get_mount_flags_unknown. intros H.
    apply known_option_iff in H. congruence.
Qed.

(** ** The errors a computation stores *)






















(* ================================================================== *)
(** * Return values *)
(* ================================================================== *)

Lemma returns_never {A} Q (m : M A) :
  (forall s, exists a s', m s = (Normal a, s')) -> returns_only Q m.
Proof.
  intros H s r s' E. destruct (H s) as [a [s1 E1]]. congruence.
Qed.

Lemma returns_pure {A} Q (a : A) : returns_only Q (pure a).
Proof. apply returns_never. intros s. now exists a, s. Qed.

Lemma returns_get_container Q : returns_only Q get_container.
Proof. apply returns_never. intros s. now exists (container s), s. Qed.

Lemma returns_get_errno Q : returns_only Q get_errno.
Proof. apply returns_never. intros s. now exists (errno s), s. Qed.

Lemma returns_sys os Q c : returns_only Q (sys os c).
Proof. apply returns_never. intros s. rewrite sys_eq. eauto. Qed.

Lemma returns_return {A} (Q : Z -> Prop) v : Q v -> returns_only Q (@return_ A v).
Proof. intros H s r s' E. inversion E; subst. now exists v. Qed.

Lemma returns_bind {A B} Q (m : M A) (k : A -> M B) :
  returns_only Q m -> (forall a, returns_only Q (k a)) -> returns_only Q (bind m k).
Proof.
  intros Hm Hk s r s' E. unfold bind in E.
  destruct (m s) as [[a|r1] s1] eqn:Em.
  - exact (Hk a s1 r s' E).
  - inversion E; subst. exact (Hm s r s' Em).
Qed.

(** [return crun_static_error (...)]. *)
Lemma returns_static_error {A} (Q : Z -> Prop) status msg :
  Q (-1) -> returns_only Q (v <- crun_static_error status msg ;; @return_ A v).
Proof. intros H s r s' E. inversion E; subst. now exists (-1). Qed.

Lemma returns_helper os Q c path : returns_only Q (helper os c path).
Proof.
  apply returns_never. intros s.
  unfold helper, bind, get_errno, put_err, pure. rewrite sys_eq.
  destruct (rv (os (trace s) c) <? 0); eauto.
Qed.

Ltac returns_step :=
  match goal with
  | |- returns_only _ (v <- crun_static_error _ _ ;; return_ v) =>
      apply returns_static_error; unfold negative; lia
  | |- returns_only _ (bind _ _) => apply returns_bind; [|intros ?]
  | |- returns_only _ (pure _) => apply returns_pure
  | |- returns_only _ get_container => apply returns_get_container
  | |- returns_only _ get_errno => apply returns_get_errno
  | |- returns_only _ (sys _ _) => apply returns_sys
  | |- returns_only _ (helper _ _ _) => apply returns_helper
  | |- returns_only _ (if ?x <? 0 then _ else _) =>
      destruct (Z.ltb_spec x 0)
  | |- returns_only _ (return_ _) => apply returns_return; assumption
  | |- returns_only _ (if ?b then _ else _) => destruct b
  | |- returns_only _ (let '(_, _) := ?p in _) => destruct p
  end.

Lemma do_mounts_returns os rootfs : returns_only negative (do_mounts os rootfs).
Proof.
  unfold do_mounts. apply returns_bind; [apply returns_get_container|].
  intros c. induction (mounts (container_def c)) as [|m l IH]; simpl.
  - apply returns_pure.
  - apply returns_bind; [|intros _; exact IH].
    unfold do_mounts_body, crun_ensure_directory. repeat returns_step.
Qed.

Lemma set_usernamespace_returns os :
  returns_only negative (libcrun_set_usernamespace os).
Proof.
  unfold libcrun_set_usernamespace, call_write_file. repeat returns_step.
Qed.

Lemma set_rlimits_loop_returns os l :
  returns_only negative (set_rlimits_loop os l).
Proof.
  induction l as [|rl l IH]; simpl.
  - apply returns_pure.
  - repeat first [exact IH | returns_step].
Qed.

Lemma run_not_zero (m : M unit) s :
  returns_only negative m -> fst (run m s) <> Value 0.
Proof.
  intros H. unfold run. destruct (m s) as [[u|r] s'] eqn:E; simpl.
  - discriminate.
  - destruct (H s r s' E) as [v [-> Hv]]. unfold negative in Hv.
    intros K. inversion K. lia.
Qed.

(** C4 against the code.  [do_mounts], [libcrun_set_usernamespace] and, for a
    definition that has an rlimit list, [libcrun_set_rlimits] have no
    [return 0]: the value 0 is never what they return, and a run in which
    every step succeeds reaches the closing brace and hands no value to the
    caller. *)
Theorem entry_points_without_success_value :
  (forall os rootfs s, fst (run (do_mounts os rootfs) s) <> Value 0) /\
  (forall os s, fst (run (libcrun_set_usernamespace os) s) <> Value 0) /\
  (forall os s,
      process_rlimits (container_def (container s)) <> None ->
      fst (run (libcrun_set_rlimits os) s) <> Value 0) /\
  fst (run (do_mounts os_ok (Some "/run/root"%string)) (s_plan 1000)) = NoValue /\
  fst (run (libcrun_set_usernamespace os_ok) (s_plan 1000)) = NoValue /\
  fst (run (libcrun_set_rlimits os_ok) (s_plan 1000)) = NoValue.
Proof.
  repeat split; try reflexivity.
  - intros os rootfs s. apply run_not_zero, do_mounts_returns.
  - intros os s. apply run_not_zero, set_usernamespace_returns.
  - intros os s H. unfold libcrun_set_rlimits, run.
    rewrite bind_get_container.
    destruct (process_rlimits (container_def (container s))) as [l|];
      [|contradiction].
    apply (run_not_zero (set_rlimits_loop os l) s), set_rlimits_loop_returns.
Qed.

(* ================================================================== *)
(** * User-namespace identity mapper: properties *)
(* ================================================================== *)

Lemma helper_eq os c path s :
  helper os c path s =
  (Normal (rv (os (trace s) c)),
   if rv (os (trace s) c) <? 0
   then with_err (after_call os s c) (rerrno (os (trace s) c)) path
   else after_call os s c).
Proof.
  unfold helper, bind, get_errno, put_err, pure, with_err. rewrite sys_eq.
  destruct (rv (os (trace s) c) <? 0) eqn:E; [|reflexivity].
  cbn. now rewrite E.
Qed.

(** [ret = write_file (...); if (ret < 0) return ret;] followed by [k]. *)
Lemma write_file_then {A} os path content len (k : M A) s :
  (ret <- call_write_file os path content len ;;
   if ret <? 0 then return_ ret else k) s =
  let c := write_file path content len in
  if rv (os (trace s) c) <? 0
  then (Stop (Value (rv (os (trace s) c))),
        with_err (after_call os s c) (rerrno (os (trace s) c)) path)
  else k (after_call os s c).
Proof.
  cbv zeta. unfold call_write_file.
  rewrite (bind_normal _ _ _ _ _ (helper_eq os _ path s)).
  now destruct (rv (os (trace s) (write_file path content len)) <? 0).
Qed.

(** C3 against the code.  A run of [libcrun_set_usernamespace] in which no
    write fails makes the writes below and no other call: with a host uid
    other than 0, setgroups, gid_map and uid_map, once each and in that order;
    with host uid 0, setgroups and uid_map only.  The gid map prepared for
    host uid 0 is never written. *)
Theorem set_usernamespace_writes os s :
  fst (run (libcrun_set_usernamespace os) s) = NoValue ->
  let c := container s in
  trace (snd (run (libcrun_set_usernamespace os) s)) =
  trace s ++
  if host_uid c =? 0 then
    [ write_file "/proc/self/setgroups" "deny" 4;
      write_file "/proc/self/uid_map" "0 0 65536" 9 ]
  else
    [ write_file "/proc/self/setgroups" "deny" 4;
      write_file "/proc/self/gid_map" ("0 " +++ fmt_d (host_gid c) +++ " 1")
                 (strlen ("0 " +++ fmt_d (host_gid c) +++ " 1"));
      write_file "/proc/self/uid_map" ("0 " +++ fmt_d (host_uid c) +++ " 1")
                 (strlen ("0 " +++ fmt_d (host_uid c) +++ " 1")) ].
Proof.
  cbv zeta. unfold run.
  remember (libcrun_set_usernamespace os s) as res eqn:E.
  unfold libcrun_set_usernamespace in E. rewrite bind_get_container in E.
  destruct (host_uid (container s) =? 0);
    cbv beta iota zeta in E; cbn [negb] in E;
    rewrite write_file_then in E; cbv zeta in E;
    (destruct (rv (os (trace s) _) <? 0); [subst res; discriminate|]);
    unfold bind at 1 in E.
  - unfold pure at 1 in E. rewrite write_file_then in E. cbv zeta in E.
    destruct (rv (os (trace (after_call os s _)) _) <? 0);
      [subst res; discriminate|].
    subst res. intros _. cbn. now rewrite <- app_assoc.
  - rewrite write_file_then in E. cbv zeta in E.
    destruct (rv (os (trace (after_call os s _)) _) <? 0);
      [subst res; discriminate|].
    unfold pure at 1 in E. rewrite write_file_then in E. cbv zeta in E.
    destruct (rv (os (trace (after_call os (after_call os s _) _)) _) <? 0);
      [subst res; discriminate|].
    subst res. intros _. cbn. now rewrite <- !app_assoc.
Qed.

Lemma set_usernamespace_writes_root :
  fst (run (libcrun_set_usernamespace os_ok) (s_plan 0)) = NoValue /\
  trace (snd (run (libcrun_set_usernamespace os_ok) (s_plan 0))) =
    [ write_file "/proc/self/setgroups" "deny" 4;
      write_file "/proc/self/uid_map" "0 0 65536" 9 ].
Proof.
  split; [reflexivity|].
  apply (set_usernamespace_writes os_ok (s_plan 0)). reflexivity.
Defined.

Example usernamespace_trace_user :
  trace (snd (run (libcrun_set_usernamespace os_ok) (s_plan 1000))) =
    [ write_file "/proc/self/setgroups" "deny" 4;
      write_file "/proc/self/gid_map" "0 1000 1" 8;
      write_file "/proc/self/uid_map" "0 1000 1" 8 ].
Proof. reflexivity. Qed.

Example written_files_root :
  written_files (trace (snd (run (libcrun_set_usernamespace os_ok) (s_plan 0))))
  = ["/proc/self/setgroups"; "/proc/self/uid_map"]%string.
Proof. reflexivity. Qed.

(* ================================================================== *)
(** * Capability manager: properties *)
(* ================================================================== *)

Lemma prctl_not_fatal ret e : 0 <= ret -> prctl_fatal ret e = false.
Proof.
  intros H. unfold prctl_fatal.
  destruct (Z.ltb_spec ret 0); [lia|reflexivity].
Qed.

Lemma passes_pure : passes (pure tt).
Proof. intros s. exists s. repeat split. exists []. now rewrite app_nil_r. Qed.

Lemma passes_seq (m k : M unit) : passes m -> passes k -> passes (m ;;; k).
Proof.
  intros Hm Hk s.
  destruct (Hm s) as [s1 [E1 [He1 [a1 Ht1]]]].
  destruct (Hk s1) as [s2 [E2 [He2 [a2 Ht2]]]].
  exists s2. rewrite (bind_normal _ _ _ _ _ E1). split; [assumption|].
  split; [congruence|]. exists (a1 ++ a2). now rewrite Ht2, Ht1, app_assoc.
Qed.

(** [ret = prctl (...); if (ret < 0 && !(errno == EINVAL || errno == EPERM))
    return ...;] with a [prctl] that succeeds. *)
Lemma passes_prctl os o a2 a3 a4 a5 msg :
  only_capset_fails os ->
  passes (ret <- sys os (sys_prctl o a2 a3 a4 a5) ;;
          e <- get_errno ;;
          if prctl_fatal ret e then
            v <- crun_static_error e msg ;; return_ v
          else pure tt).
Proof.
  intros H s. unfold bind at 1. rewrite sys_eq. unfold bind, get_errno.
  rewrite prctl_not_fatal by apply (H (trace s) (sys_prctl o a2 a3 a4 a5)).
  eexists. split; [reflexivity|]. split; [reflexivity|].
  now exists [sys_prctl o a2 a3 a4 a5].
Qed.

Lemma raise_ambient_passes os caps l :
  only_capset_fails os -> passes (raise_ambient os caps l).
Proof.
  intros H. induction l as [|cap l IH]; simpl; [apply passes_pure|].
  apply passes_seq; [|exact IH].
  match goal with |- passes (if ?b then _ else _) => destruct b end;
    [now apply passes_prctl | apply passes_pure].
Qed.

Lemma drop_bounding_passes os caps l :
  only_capset_fails os -> passes (drop_bounding os caps l).
Proof.
  intros H. induction l as [|cap l IH]; simpl; [apply passes_pure|].
  apply passes_seq; [|exact IH].
  match goal with |- passes (if ?b then _ else _) => destruct b end;
    [now apply passes_prctl | apply passes_pure].
Qed.

(** C1 against the code.  Where [capset] fails and every other call
    succeeds, [set_required_caps] makes the [capset] call, gets the failure,
    stores no error and returns 0: the test that follows the call looks at
    the outcome of the comparison [capset (...) < 0], which is 0 or 1 and
    never negative. *)
Theorem set_required_caps_ignores_capset os CAP_LAST_CAP caps no_new_privs s :
  only_capset_fails os ->
  let res := run (set_required_caps os CAP_LAST_CAP caps no_new_privs) s in
  fst res = Value 0 /\
  err (snd res) = err s /\
  exists before after,
    trace (snd res) = before ++ capset_call caps :: after /\
    rv (os before (capset_call caps)) < 0.
Proof.
  intros H. cbv zeta. unfold run.
  remember (set_required_caps os CAP_LAST_CAP caps no_new_privs s) as res eqn:E.
  unfold set_required_caps in E. fold (capset_call caps) in E.
  rewrite (bind_normal _ _ _ _ _ (sys_eq os _ s)) in E.
  rewrite bind_get_errno in E.
  rewrite prctl_not_fatal in E
    by apply (H (trace s) (sys_prctl PR_CAP_AMBIENT PR_CAP_AMBIENT_CLEAR_ALL 0 0 0)).
  set (s1 := after_call os s _) in E.
  pose proof (raise_ambient_passes os caps (all_cap_numbers CAP_LAST_CAP) H s1)
    as [s2 [E2 [He2 [a2 Ht2]]]].
  pose proof (drop_bounding_passes os caps (all_cap_numbers CAP_LAST_CAP) H s2)
    as [s3 [E3 [He3 [a3 Ht3]]]].
  assert (He1 : err s1 = err s) by reflexivity.
  rewrite (bind_normal _ _ _ _ _ E2), (bind_normal _ _ _ _ _ E3) in E.
  rewrite (bind_normal _ _ _ _ _ (sys_eq os (capset_call caps) s3)) in E.
  assert (F : rv (os (trace s3) (capset_call caps)) < 0)
    by apply (H (trace s3) (capset_call caps)).
  assert (T : ((if rv (os (trace s3) (capset_call caps)) <? 0 then 1 else 0) <? 0)
              = false).
  { destruct (rv (os (trace s3) (capset_call caps)) <? 0); reflexivity. }
  rewrite T in E.
  destruct no_new_privs.
  - rewrite (bind_normal _ _ _ _ _ (sys_eq os _ _)) in E.
    set (s4 := after_call os s3 (capset_call caps)) in *.
    pose proof (H (trace s4) (sys_prctl PR_SET_NO_NEW_PRIVS 1 0 0 0)) as P.
    cbn [is_capset] in P.
    destruct (Z.ltb_spec (rv (os (trace s4) (sys_prctl PR_SET_NO_NEW_PRIVS 1 0 0 0))) 0);
      [lia|].
    subst res. cbn [fst snd return_ err after_call trace].
    subst s4. cbn [err trace after_call].
    split; [reflexivity|]. split; [congruence|].
    exists (trace s3), [sys_prctl PR_SET_NO_NEW_PRIVS 1 0 0 0].
    rewrite <- app_assoc. now split.
  - subst res. cbn [fst snd return_ err after_call trace].
    split; [reflexivity|]. split; [congruence|].
    exists (trace s3), []. now split.
Qed.

Lemma set_required_caps_ignores_capset_witness :
  let res := run (set_required_caps os_capset_eperm 37 caps_net_bind true) (s_plan 0) in
  fst res = Value 0 /\
  err (snd res) = err (s_plan 0) /\
  exists before after,
    trace (snd res) = before ++ capset_call caps_net_bind :: after /\
    rv (os_capset_eperm before (capset_call caps_net_bind)) < 0.
Proof.
  apply (set_required_caps_ignores_capset os_capset_eperm 37 caps_net_bind true
           (s_plan 0)).
  intros tr c. destruct c; simpl; lia.
Defined.

Example set_required_caps_capset_eperm :
  let res := run (set_required_caps os_capset_eperm 37 caps_net_bind false) (s_plan 0) in
  fst res = Value 0 /\ err (snd res) = None /\ errno (snd res) = EPERM /\
  last (trace (snd res)) (sys_close 0) = capset_call caps_net_bind.
Proof. vm_compute. repeat split. Qed.

(* ================================================================== *)
(** * Further properties: namespace isolator *)
(* ================================================================== *)

Lemma after_calls_trace os l :
  forall s, trace (after_calls os s l) = trace s ++ l.
Proof.
  induction l as [|c l IH]; intros s; simpl.
  - now rewrite app_nil_r.
  - unfold after_calls in *. rewrite IH. simpl. now rewrite <- app_assoc.
Qed.

Lemma after_calls_err os l : forall s, err (after_calls os s l) = err s.
Proof.
  induction l as [|c l IH]; intros s; simpl; [reflexivity|].
  unfold after_calls in *. now rewrite IH.
Qed.

Lemma after_calls_container os l :
  forall s, container (after_calls os s l) = container s.
Proof.
  induction l as [|c l IH]; intros s; simpl; [reflexivity|].
  unfold after_calls in *. now rewrite IH.
Qed.

Lemma after_calls_cons os c l s :
  after_calls os s (c :: l) = after_calls os (after_call os s c) l.
Proof. reflexivity. Qed.

Lemma after_calls_app os l1 l2 s :
  after_calls os s (l1 ++ l2) = after_calls os (after_calls os s l1) l2.
Proof. unfold after_calls. apply fold_left_app. Qed.

(** X1.  The lookup of a namespace type: a name of the table gets the value of
    its entry, which is positive; every other name gets -1. *)
Theorem find_namespace_lookup name :
  (In name (map lns_name namespaces) ->
   exists e, In e namespaces /\ lns_name e = name /\
             find_namespace name = lns_value e /\ 0 < lns_value e) /\
  (~ In name (map lns_name namespaces) -> find_namespace name = -1).
Proof.
  split.
  - simpl. intros H.
    repeat (destruct H as [<-|H];
            [eexists; split;
             [|split; [|split; [reflexivity|vm_compute; reflexivity]]];
             [simpl; tauto|reflexivity]|]).
    destruct H.
  - apply find_namespace_unknown.
Qed.

Lemma find_namespace_lookup_witness :
  (exists e, In e namespaces /\ lns_name e = "pid"%string /\
             find_namespace "pid" = lns_value e /\ 0 < lns_value e) /\
  find_namespace "time" = -1.
Proof.
  split.
  - apply (proj1 (find_namespace_lookup "pid")). simpl. tauto.
  - apply (proj2 (find_namespace_lookup "time")). simpl.
    intros H. repeat (destruct H as [H|H]; [discriminate|]). exact H.
Defined.

Lemma kernel_flag_disjoint a b :
  In a namespace_types -> In b namespace_types ->
  Z.land (kernel_flag a) (kernel_flag b) <> 0 -> a = b.
Proof.
  unfold namespace_types. simpl. intros Ha Hb.
  repeat (destruct Ha as [<-|Ha]);
    try (destruct Ha);
    repeat (destruct Hb as [<-|Hb]);
    try (destruct Hb);
    try reflexivity;
    intros H; exfalso; apply H; reflexivity.
Qed.

Lemma kernel_flag_nonzero a :
  In a namespace_types -> Z.land (kernel_flag a) (kernel_flag a) <> 0.
Proof.
  unfold namespace_types. simpl. intros Ha.
  repeat (destruct Ha as [<-|Ha]; [vm_compute; discriminate|]).
  destruct Ha.
Qed.

Lemma fold_left_lor l : forall a, fold_left Z.lor l a = Z.lor a (fold_left Z.lor l 0).
Proof.
  induction l as [|x l IH]; intros a; simpl.
  - now rewrite Z.lor_0_r.
  - rewrite IH, (IH x). now rewrite Z.lor_assoc.
Qed.

Lemma union_of_flags_tell_types l t :
  (forall ns, In ns l -> In (ns_type ns) namespace_types) ->
  In t namespace_types ->
  (Z.land (union_of_flags l) (kernel_flag t) <> 0 <-> In t (map ns_type l)).
Proof.
  intros Hall Ht. unfold union_of_flags.
  induction l as [|ns l IH]; simpl.
  - split; [intros H; now elim H|intros []].
  - rewrite fold_left_lor, Z.land_lor_distr_l.
    assert (Hl : forall n, In n l -> In (ns_type n) namespace_types)
      by (intros n Hn; apply Hall; now right).
    specialize (IH Hl).
    assert (Hns : In (ns_type ns) namespace_types) by (apply Hall; now left).
    split.
    + intros H.
      destruct (Z.eq_dec (Z.land (kernel_flag (ns_type ns)) (kernel_flag t)) 0) as [E|E].
      * right. apply IH. rewrite E in H. now rewrite Z.lor_0_l in H.
      * left. now apply kernel_flag_disjoint.
    + intros [E|H].
      * rewrite E. intros K. apply Z.lor_eq_0_iff in K.
        now apply (kernel_flag_nonzero t Ht).
      * intros K. apply Z.lor_eq_0_iff in K. now apply IH.
Qed.

(** X2.  The word that [libcrun_set_namespaces] leaves in [unshare_flags]
    tells which namespaces were asked for: for a list of recognised types
    and whatever the environment answers, the value [find_namespace] gives
    for a type has a bit in common with the stored word exactly when a
    request of the list has that type. *)
Theorem unshare_flags_tell_types os s t :
  (forall ns, In ns (linux_namespaces (container_def (container s))) ->
              In (ns_type ns) namespace_types) ->
  In t namespace_types ->
  (Z.land (unshare_flags (container (snd (run (libcrun_set_namespaces os) s))))
          (find_namespace t) <> 0
   <-> In t (map ns_type (linux_namespaces (container_def (container s))))).
Proof.
  intros Hall Ht.
  destruct (set_namespaces_recognised os s Hall) as [Hc _]. cbv zeta in Hc.
  rewrite Hc. cbn [set_unshare_flags unshare_flags].
  rewrite (find_namespace_kernel_flag t Ht).
  now apply union_of_flags_tell_types.
Qed.

Lemma unshare_flags_tell_types_witness :
  let s' := snd (run (libcrun_set_namespaces os_ok) s_namespaces) in
  let l := linux_namespaces (container_def (container s_namespaces)) in
  (Z.land (unshare_flags (container s')) (find_namespace "mount") <> 0
   <-> In "mount"%string (map ns_type l)) /\
  (Z.land (unshare_flags (container s')) (find_namespace "user") <> 0
   <-> In "user"%string (map ns_type l)).
Proof.
  assert (H : forall ns,
             In ns (linux_namespaces (container_def (container s_namespaces))) ->
             In (ns_type ns) namespace_types).
  { simpl. intros ns H. repeat (destruct H as [<-|H]; [simpl; tauto|]). destruct H. }
  split.
  - apply (unshare_flags_tell_types os_ok s_namespaces "mount" H). simpl. tauto.
  - apply (unshare_flags_tell_types os_ok s_namespaces "user" H). simpl. tauto.
Defined.

Example unshare_flags_stored :
  unshare_flags (container (snd (run (libcrun_set_namespaces os_ok) s_namespaces)))
  = Z.lor CLONE_NEWPID (Z.lor CLONE_NEWNET CLONE_NEWNS).
Proof. reflexivity. Qed.

Lemma cleanup_close_open os fd s :
  0 <= fd -> cleanup_close os fd s = (Normal tt, after_call os s (sys_close fd)).
Proof.
  intros H. unfold cleanup_close.
  destruct (Z.ltb_spec fd 0); [lia|reflexivity].
Qed.

Lemma ltb_succeed (os : oracle) tr c :
  all_succeed os -> c <> leftover_value -> (rv (os tr c) <? 0) = false.
Proof.
  intros H Hc. specialize (H tr c Hc).
  destruct (Z.ltb_spec (rv (os tr c)) 0); [lia|reflexivity].
Qed.

Ltac succeeds := first [assumption | discriminate].

Lemma open_oldroot_call : open_oldroot <> leftover_value.
Proof. discriminate. Qed.

Lemma open_newroot_call rootfs : open_newroot rootfs <> leftover_value.
Proof. discriminate. Qed.

Lemma set_namespaces_join_calls os l :
  all_succeed os ->
  (forall ns, In ns l -> In (ns_type ns) namespace_types) ->
  forall s,
    set_namespaces_join os l s
    = (Normal tt, after_calls os s (join_calls os (trace s) l)).
Proof.
  intros Hos. induction l as [|ns l IH]; intros Hall s; [reflexivity|].
  assert (Hl : forall n, In n l -> In (ns_type n) namespace_types)
    by (intros n Hn; apply Hall; now right).
  specialize (IH Hl).
  cbn [set_namespaces_join join_calls]. destruct (ns_path ns) as [path|]; [|apply IH].
  rewrite (bind_normal _ _ _ _ _ (sys_eq os _ s)).
  rewrite ltb_succeed by succeeds.
  rewrite (bind_normal _ _ _ _ _ (sys_eq os _ _)).
  rewrite ltb_succeed by succeeds.
  rewrite (bind_normal _ _ _ _ _
             (cleanup_close_open os _ _ (Hos (trace s) (sys_open _ _) ltac:(discriminate)))).
  rewrite (find_namespace_kernel_flag _ (Hall ns (or_introl eq_refl))).
  rewrite IH. cbv zeta. rewrite after_calls_app.
  cbn [after_calls fold_left trace after_call].
  now rewrite <- !app_assoc.
Qed.

(** X3.  With recognised types and an environment in which every call succeeds,
    [libcrun_set_namespaces] returns 0, stores no error, and makes exactly
    these calls: the [unshare], then for each request that carries a path,
    in list order, the open of that path, the [setns] of the descriptor this
    open returned to the namespace of the request's type, and the closing of
    that descriptor; a request without a path causes no call. *)
Theorem set_namespaces_joins_in_order os s :
  all_succeed os ->
  (forall ns, In ns (linux_namespaces (container_def (container s))) ->
              In (ns_type ns) namespace_types) ->
  let l := linux_namespaces (container_def (container s)) in
  let res := run (libcrun_set_namespaces os) s in
  fst res = Value 0 /\ err (snd res) = err s /\
  trace (snd res) =
    trace s ++ sys_unshare (union_of_flags l) ::
    join_calls os (trace s ++ [sys_unshare (union_of_flags l)]) l.
Proof.
  intros Hos Hall. cbv zeta. unfold union_of_flags.
  set (flags := fold_left Z.lor _ 0).
  remember (run (libcrun_set_namespaces os) s) as res eqn:E.
  unfold run, libcrun_set_namespaces in E.
  rewrite bind_get_container in E.
  rewrite (bind_normal _ _ _ _ _ (set_namespaces_flags_accepts _ 0 s Hall)) in E.
  fold flags in E.
  unfold bind at 1 in E. unfold put_container at 1 in E.
  rewrite (bind_normal _ _ _ _ _ (sys_eq os _ _)) in E.
  rewrite ltb_succeed in E by succeeds.
  rewrite (bind_normal _ _ _ _ _ (set_namespaces_join_calls os _ Hos Hall _)) in E.
  subst res. cbn [fst snd return_].
  rewrite after_calls_err, after_calls_trace. cbn [trace err after_call].
  split; [reflexivity|]. split; [reflexivity|].
  now rewrite <- app_assoc.
Qed.

Lemma set_namespaces_joins_in_order_witness :
  let res := run (libcrun_set_namespaces os_fds) s_namespaces in
  fst res = Value 0 /\ err (snd res) = None /\
  trace (snd res) =
    [ sys_unshare (Z.lor CLONE_NEWPID (Z.lor CLONE_NEWNET CLONE_NEWNS));
      sys_open (Some "/proc/1/ns/net"%string) O_RDONLY;
      sys_setns 3 CLONE_NEWNET;
      sys_close 3 ].
Proof.
  apply (set_namespaces_joins_in_order os_fds s_namespaces).
  - intros tr c. unfold os_fds. destruct c; cbn [rv]; lia.
  - simpl. intros ns H.
    repeat (destruct H as [<-|H]; [simpl; tauto|]). destruct H.
Defined.

Example set_namespaces_trace_example :
  trace (snd (run (libcrun_set_namespaces os_ok) s_namespaces))
  = [ sys_unshare (Z.lor CLONE_NEWPID (Z.lor CLONE_NEWNET CLONE_NEWNS));
      sys_open (Some "/proc/1/ns/net"%string) O_RDONLY;
      sys_setns 0 CLONE_NEWNET;
      sys_close 0 ].
Proof. reflexivity. Qed.




(* ================================================================== *)
(** * Further properties: resource limit setter *)
(* ================================================================== *)

Lemma get_rlimit_resource_known name :
  In name rlimit_names -> 0 <= get_rlimit_resource name.
Proof.
  unfold rlimit_names. simpl. intros H.
  repeat (destruct H as [<-|H]; [vm_compute; discriminate|]).
  destruct H.
Qed.

Lemma get_rlimit_resource_unknown name :
  ~ In name rlimit_names -> get_rlimit_resource name = -1.
Proof.
  unfold rlimit_names. simpl. intros H.
  unfold get_rlimit_resource, rlimits, get_rlimit_resource_from. simpl.
  repeat (strcmp_case; [exfalso; tauto|]).
  reflexivity.
Qed.

(** X5.  The lookup of a resource name: a name of the table gets the resource of
    its entry, which is not negative (RLIMIT_CPU is 0); every other name
    gets -1; and no two names of the table stand for the same resource. *)
Theorem get_rlimit_resource_lookup :
  (forall e, In e rlimits ->
             get_rlimit_resource (rls_name e) = rls_value e /\ 0 <= rls_value e) /\
  (forall name, ~ In name rlimit_names -> get_rlimit_resource name = -1) /\
  NoDup (map rls_value rlimits).
Proof.
  split; [|split].
  - simpl. intros e H.
    repeat (destruct H as [<-|H]; [split; vm_compute; congruence|]).
    destruct H.
  - apply get_rlimit_resource_unknown.
  - simpl. repeat (constructor; [simpl; intros H;
      repeat (destruct H as [H|H]; [discriminate H|]); exact H|]).
    constructor.
Qed.

Lemma calls_succeed_all os tr l :
  all_succeed os -> Forall (fun c => c <> leftover_value) l ->
  calls_succeed os tr l.
Proof.
  intros H Hl. revert tr.
  induction Hl as [|c l Hc _ IH]; intros tr; simpl; [exact I|].
  split; [now apply H|apply IH].
Qed.

Lemma rlimit_calls_are_calls l :
  Forall (fun c => c <> leftover_value) (map rlimit_call l).
Proof.
  induction l as [|rl l IH]; simpl; constructor; [discriminate|exact IH].
Qed.

Lemma set_rlimits_loop_prefix os good rest :
  (forall rl, In rl good -> In (rl_type rl) rlimit_names) ->
  forall s,
    calls_succeed os (trace s) (map rlimit_call good) ->
    set_rlimits_loop os (good ++ rest) s =
    set_rlimits_loop os rest (after_calls os s (map rlimit_call good)).
Proof.
  induction good as [|rl good IH]; intros Hk s Hs; [reflexivity|].
  simpl in Hs. destruct Hs as [H0 Hs].
  cbn [app set_rlimits_loop map].
  pose proof (get_rlimit_resource_known _ (Hk rl (or_introl eq_refl))) as Hr.
  destruct (Z.ltb_spec (get_rlimit_resource (rl_type rl)) 0); [lia|].
  fold (rlimit_call rl).
  rewrite (bind_normal _ _ _ _ _ (sys_eq os _ s)).
  destruct (Z.ltb_spec (rv (os (trace s) (rlimit_call rl))) 0); [lia|].
  rewrite IH.
  - reflexivity.
  - intros r Hr'. apply Hk. now right.
  - exact Hs.
Qed.

(** X6.  With a list of known resource names and an environment in which every
    call succeeds, [libcrun_set_rlimits] makes one [setrlimit] per request,
    in list order, with the resource of the name and the soft and hard
    values as given, makes no other call and stores no error. *)
Theorem set_rlimits_in_order os s l :
  process_rlimits (container_def (container s)) = Some l ->
  (forall rl, In rl l -> In (rl_type rl) rlimit_names) ->
  all_succeed os ->
  snd (run (libcrun_set_rlimits os) s) = after_calls os s (map rlimit_call l) /\
  trace (snd (run (libcrun_set_rlimits os) s)) = trace s ++ map rlimit_call l /\
  err (snd (run (libcrun_set_rlimits os) s)) = err s.
Proof.
  intros Hl Hk Hos.
  assert (E : snd (run (libcrun_set_rlimits os) s)
              = after_calls os s (map rlimit_call l)).
  { rewrite run_snd. unfold libcrun_set_rlimits.
    rewrite bind_get_container, Hl.
    rewrite <- (app_nil_r l) at 1.
    rewrite set_rlimits_loop_prefix; [reflexivity|assumption|].
    apply calls_succeed_all; [assumption|apply rlimit_calls_are_calls]. }
  rewrite E, after_calls_trace, after_calls_err. repeat split.
Qed.

Lemma set_rlimits_in_order_witness :
  trace (snd (run (libcrun_set_rlimits os_ok)
                  (with_rlimits (s_plan 0) (Some [rl_core; rl_nofile]))))
  = [sys_setrlimit RLIMIT_CORE 0 0; sys_setrlimit RLIMIT_NOFILE 100 200].
Proof.
  apply (set_rlimits_in_order os_ok
           (with_rlimits (s_plan 0) (Some [rl_core; rl_nofile]))
           [rl_core; rl_nofile] eq_refl).
  - simpl. intros rl H.
    repeat (destruct H as [<-|H]; [simpl; tauto|]). destruct H.
  - intros tr c. simpl. lia.
Defined.

(** X7.  Names are resolved one request at a time: when the first unknown name
    comes after requests that were applied, those limits stay set; the run
    ends with the error "invalid rlimit '<name>'" of status 0 and the
    requests behind the unknown one are not looked at. *)
Theorem set_rlimits_unknown_name os s good bad rest :
  process_rlimits (container_def (container s)) = Some (good ++ bad :: rest) ->
  (forall rl, In rl good -> In (rl_type rl) rlimit_names) ->
  ~ In (rl_type bad) rlimit_names ->
  calls_succeed os (trace s) (map rlimit_call good) ->
  run (libcrun_set_rlimits os) s =
    (Value (-1),
     with_err (after_calls os s (map rlimit_call good)) 0
              ("invalid rlimit '" +++ rl_type bad +++ "'")).
Proof.
  intros Hl Hk Hb Hs. unfold run, libcrun_set_rlimits.
  rewrite bind_get_container, Hl.
  rewrite set_rlimits_loop_prefix by assumption.
  cbn [set_rlimits_loop]. rewrite (get_rlimit_resource_unknown _ Hb).
  reflexivity.
Qed.

Lemma set_rlimits_unknown_name_witness :
  run (libcrun_set_rlimits os_ok)
      (with_rlimits (s_plan 0) (Some [rl_core; rl_bogus; rl_nofile])) =
    (Value (-1),
     {| container := container (with_rlimits (s_plan 0)
                                  (Some [rl_core; rl_bogus; rl_nofile]));
        errno := 0;
        err := Some {| err_status := 0; err_msg := "invalid rlimit 'BOGUS'" |};
        trace := [sys_setrlimit RLIMIT_CORE 0 0] |}).
Proof.
  apply (set_rlimits_unknown_name os_ok
           (with_rlimits (s_plan 0) (Some [rl_core; rl_bogus; rl_nofile]))
           [rl_core] rl_bogus [rl_nofile] eq_refl).
  - simpl. intros rl H.
    repeat (destruct H as [<-|H]; [simpl; tauto|]). destruct H.
  - simpl. intros H. repeat (destruct H as [H|H]; [discriminate|]). exact H.
  - simpl. split; [lia|exact I].
Defined.

(** X8.  The first [setrlimit] that fails ends the run with the error
    "setrlimit '<name>'" under the [errno] of the call; the limits before it
    stay set and the requests behind it are not applied. *)
Theorem set_rlimits_setrlimit_failure os s good rl rest :
  process_rlimits (container_def (container s)) = Some (good ++ rl :: rest) ->
  (forall r, In r good -> In (rl_type r) rlimit_names) ->
  In (rl_type rl) rlimit_names ->
  calls_succeed os (trace s) (map rlimit_call good) ->
  rv (os (trace s ++ map rlimit_call good) (rlimit_call rl)) < 0 ->
  run (libcrun_set_rlimits os) s =
    (Value (-1),
     with_err (after_call os (after_calls os s (map rlimit_call good))
                          (rlimit_call rl))
              (rerrno (os (trace s ++ map rlimit_call good) (rlimit_call rl)))
              ("setrlimit '" +++ rl_type rl +++ "'")).
Proof.
  intros Hl Hk Hr Hs Hf. unfold run, libcrun_set_rlimits.
  rewrite bind_get_container, Hl.
  rewrite set_rlimits_loop_prefix by assumption.
  cbn [set_rlimits_loop].
  pose proof (get_rlimit_resource_known _ Hr) as Hp.
  destruct (Z.ltb_spec (get_rlimit_resource (rl_type rl)) 0); [lia|].
  fold (rlimit_call rl).
  rewrite (bind_normal _ _ _ _ _ (sys_eq os _ _)).
  rewrite after_calls_trace.
  destruct (Z.ltb_spec (rv (os (trace s ++ map rlimit_call good) (rlimit_call rl))) 0)
    as [_|]; [|lia].
  unfold bind, get_errno, crun_static_error, put_err, pure, return_, bind,
    with_err.
  cbn [fst snd]. f_equal. f_equal.
  - cbn [errno after_call]. rewrite after_calls_trace.
    destruct (Z.ltb_spec (rv (os (trace s ++ map rlimit_call good) (rlimit_call rl))) 0)
      as [_|]; [|lia].
    reflexivity.
Qed.

Lemma set_rlimits_setrlimit_failure_witness :
  run (libcrun_set_rlimits os_nofile_eperm)
      (with_rlimits (s_plan 0) (Some [rl_core; rl_nofile; rl_bogus])) =
    (Value (-1),
     {| container := container (with_rlimits (s_plan 0)
                                  (Some [rl_core; rl_nofile; rl_bogus]));
        errno := EPERM;
        err := Some {| err_status := EPERM;
                       err_msg := "setrlimit 'RLIMIT_NOFILE'" |};
        trace := [sys_setrlimit RLIMIT_CORE 0 0;
                  sys_setrlimit RLIMIT_NOFILE 100 200] |}).
Proof.
  apply (set_rlimits_setrlimit_failure os_nofile_eperm
           (with_rlimits (s_plan 0) (Some [rl_core; rl_nofile; rl_bogus]))
           [rl_core] rl_nofile [rl_bogus] eq_refl).
  - simpl. intros rl H.
    repeat (destruct H as [<-|H]; [simpl; tauto|]). destruct H.
  - simpl. tauto.
  - simpl. split; [lia|exact I].
  - simpl. lia.
Defined.

(* ================================================================== *)
(** * Further properties: mount plan executor *)
(* ================================================================== *)

Lemma do_mounts_body_succeeds os rootfs m s :
  calls_succeed os (trace s) (mount_calls (container s) rootfs m) ->
  do_mounts_body os rootfs m s =
  (Normal tt, after_calls os s (mount_calls (container s) rootfs m)).
Proof.
  unfold mount_calls. intros H. cbn [calls_succeed] in H. destruct H as [H1 H2].
  unfold do_mounts_body. rewrite bind_get_container.
  unfold crun_ensure_directory.
  rewrite (bind_normal _ _ _ _ _ (helper_eq os _ _ s)).
  destruct (Z.ltb_spec (rv (os (trace s)
              (ensure_directory (mount_target rootfs m) mode_0755))) 0); [lia|].
  destruct (mount_flags_data (container s) m) as [flags data]. cbn [fst snd] in *.
  destruct (strcmp (mnt_type m) "cgroup" =? 0); [reflexivity|].
  cbn [calls_succeed] in H2. destruct H2 as [H2 _].
  rewrite (bind_normal _ _ _ _ _ (sys_eq os _ _)).
  cbn [trace after_call].
  match goal with
  | |- context [if ?x <? 0 then _ else _] => destruct (Z.ltb_spec x 0); [lia|]
  end.
  reflexivity.
Qed.

Lemma calls_succeed_app os l1 : forall tr l2,
  calls_succeed os tr (l1 ++ l2) <->
  calls_succeed os tr l1 /\ calls_succeed os (tr ++ l1) l2.
Proof.
  induction l1 as [|c l1 IH]; intros tr l2; simpl.
  - rewrite app_nil_r. tauto.
  - rewrite IH, <- app_assoc. simpl. tauto.
Qed.

Lemma do_mounts_loop_prefix os rootfs good rest :
  forall s,
    calls_succeed os (trace s) (flat_map (mount_calls (container s) rootfs) good) ->
    do_mounts_loop os rootfs (good ++ rest) s =
    do_mounts_loop os rootfs rest
      (after_calls os s (flat_map (mount_calls (container s) rootfs) good)).
Proof.
  induction good as [|m good IH]; intros s H; [reflexivity|].
  cbn [flat_map] in H. apply calls_succeed_app in H. destruct H as [Hm Hg].
  cbn [app do_mounts_loop flat_map].
  rewrite (bind_normal _ _ _ _ _ (do_mounts_body_succeeds os rootfs m s Hm)).
  rewrite after_calls_app.
  set (s1 := after_calls os s (mount_calls (container s) rootfs m)).
  assert (Hc : container s1 = container s) by apply after_calls_container.
  assert (Ht : trace s1 = trace s ++ mount_calls (container s) rootfs m)
    by apply after_calls_trace.
  rewrite <- Hc. apply IH. now rewrite Hc, Ht.
Qed.

Lemma mount_calls_are_calls c rootfs l :
  Forall (fun c => c <> leftover_value) (flat_map (mount_calls c rootfs) l).
Proof.
  induction l as [|m l IH]; [constructor|].
  cbn [flat_map]. apply Forall_app. split; [|exact IH].
  unfold mount_calls.
  destruct (strcmp (mnt_type m) "cgroup" =? 0);
    repeat (constructor; [discriminate|]); constructor.
Qed.

(** X9.  With an environment in which every call succeeds, [do_mounts] handles
    the requests in list order and makes for each one the creation of its
    target directory followed, unless the type is "cgroup", by one mount of
    the request's source (its type when it has no source) on the target; it
    makes no other call and stores no error. *)
Theorem do_mounts_in_order os rootfs s :
  all_succeed os ->
  let calls := flat_map (mount_calls (container s) rootfs)
                        (mounts (container_def (container s))) in
  snd (run (do_mounts os rootfs) s) = after_calls os s calls /\
  trace (snd (run (do_mounts os rootfs) s)) = trace s ++ calls /\
  err (snd (run (do_mounts os rootfs) s)) = err s.
Proof.
  intros Hos. cbv zeta.
  assert (E : snd (run (do_mounts os rootfs) s)
              = after_calls os s
                  (flat_map (mount_calls (container s) rootfs)
                            (mounts (container_def (container s))))).
  { rewrite run_snd. unfold do_mounts. rewrite bind_get_container.
    rewrite <- (app_nil_r (mounts (container_def (container s)))) at 1.
    rewrite do_mounts_loop_prefix; [reflexivity|].
    apply calls_succeed_all; [assumption|apply mount_calls_are_calls]. }
  rewrite E, after_calls_trace, after_calls_err. repeat split.
Qed.

Lemma do_mounts_in_order_witness :
  trace (snd (run (do_mounts os_ok (Some "/run/root"%string))
                  (with_mounts (s_plan 0) [m_proc; m_data])))
  = [ ensure_directory "/run/root/proc" mode_0755;
      sys_mount "proc" (Some "/run/root/proc"%string) "proc" 0 None;
      ensure_directory "/run/root/data" mode_0755;
      sys_mount "/srv/data" (Some "/run/root/data"%string) "bind"
                (Z.lor MS_BIND MS_NOSUID) (Some "uid=7"%string) ].
Proof.
  apply (do_mounts_in_order os_ok (Some "/run/root"%string)
           (with_mounts (s_plan 0) [m_proc; m_data])).
  intros tr c. simpl. lia.
Defined.

(** X10.  A mount that fails ends [do_mounts] with the error "mount
    '<destination>'", which names the destination of the request and not the
    target under the root, under the [errno] of the call; the requests
    before it stay mounted and those behind it are not looked at. *)
Theorem do_mounts_mount_failure os rootfs s good m rest :
  mounts (container_def (container s)) = good ++ m :: rest ->
  let c := container s in
  let before := flat_map (mount_calls c rootfs) good in
  let mkdir := ensure_directory (mount_target rootfs m) mode_0755 in
  let mnt :=
    sys_mount (match mnt_source m with Some x => x | None => mnt_type m end)
              (Some (mount_target rootfs m)) (mnt_type m)
              (fst (mount_flags_data c m)) (snd (mount_flags_data c m)) in
  strcmp (mnt_type m) "cgroup" <> 0 ->
  calls_succeed os (trace s) (before ++ [mkdir]) ->
  rv (os (trace s ++ before ++ [mkdir]) mnt) < 0 ->
  run (do_mounts os rootfs) s =
    (Value (-1),
     with_err (after_calls os s (before ++ [mkdir; mnt]))
              (rerrno (os (trace s ++ before ++ [mkdir]) mnt))
              ("mount '" +++ mnt_destination m +++ "'")).
Proof.
  intros Hl. cbv zeta. intros Hcg Hs Hf.
  apply calls_succeed_app in Hs. destruct Hs as [Hg Hk].
  cbn [calls_succeed] in Hk. destruct Hk as [Hk _].
  unfold run, do_mounts. rewrite bind_get_container, Hl.
  rewrite do_mounts_loop_prefix by assumption.
  set (s1 := after_calls os s _).
  assert (Hc1 : container s1 = container s) by apply after_calls_container.
  assert (Ht1 : trace s1 = trace s ++ flat_map (mount_calls (container s) rootfs) good)
    by apply after_calls_trace.
  cbn [do_mounts_loop]. unfold bind at 1.
  unfold do_mounts_body. rewrite bind_get_container.
  unfold crun_ensure_directory.
  rewrite (bind_normal _ _ _ _ _ (helper_eq os _ _ s1)).
  rewrite Ht1.
  destruct (Z.ltb_spec (rv (os (trace s ++ flat_map (mount_calls (container s) rootfs) good)
              (ensure_directory (mount_target rootfs m) mode_0755))) 0); [lia|].
  rewrite Hc1.
  destruct (mount_flags_data (container s) m) as [flags data]. cbn [fst snd] in *.
  destruct (Z.eqb_spec (strcmp (mnt_type m) "cgroup") 0); [contradiction|].
  rewrite (bind_normal _ _ _ _ _ (sys_eq os _ _)).
  cbn [trace after_call]. rewrite Ht1.
  rewrite <- app_assoc.
  match goal with
  | |- context [if ?x <? 0 then _ else _] =>
      destruct (Z.ltb_spec x 0) as [_|]; [|lia]
  end.
  unfold bind, get_errno, crun_static_error, put_err, pure, return_, bind,
    with_err.
  cbn [fst snd]. f_equal.
  assert (Es : after_calls os s
                 (flat_map (mount_calls (container s) rootfs) good ++
                  [ensure_directory (mount_target rootfs m) mode_0755;
                   sys_mount (match mnt_source m with
                              | Some x => x
                              | None => mnt_type m
                              end)
                             (Some (mount_target rootfs m)) (mnt_type m) flags data])
               = after_call os
                   (after_call os s1
                      (ensure_directory (mount_target rootfs m) mode_0755))
                   (sys_mount (match mnt_source m with
                               | Some x => x
                               | None => mnt_type m
                               end)
                              (Some (mount_target rootfs m)) (mnt_type m) flags data)).
  { unfold s1. now rewrite after_calls_app. }
  rewrite Es. f_equal. f_equal. f_equal.
  cbn [errno after_call trace]. rewrite Ht1, <- app_assoc.
  match goal with
  | |- context [if ?x <? 0 then _ else _] =>
      destruct (Z.ltb_spec x 0) as [_|]; [|lia]
  end.
  reflexivity.
Qed.

Lemma do_mounts_mount_failure_witness :
  run (do_mounts os_bind_eperm (Some "/run/root"%string))
      (with_mounts (s_plan 0) [m_proc; m_data; m_tmp]) =
    (Value (-1),
     {| container := container (with_mounts (s_plan 0) [m_proc; m_data; m_tmp]);
        errno := EPERM;
        err := Some {| err_status := EPERM; err_msg := "mount '/data'" |};
        trace :=
          [ ensure_directory "/run/root/proc" mode_0755;
            sys_mount "proc" (Some "/run/root/proc"%string) "proc" 0 None;
            ensure_directory "/run/root/data" mode_0755;
            sys_mount "/srv/data" (Some "/run/root/data"%string) "bind"
                      (Z.lor MS_BIND MS_NOSUID) (Some "uid=7"%string) ] |}).
Proof.
  apply (do_mounts_mount_failure os_bind_eperm (Some "/run/root"%string)
           (with_mounts (s_plan 0) [m_proc; m_data; m_tmp])
           [m_proc] m_data [m_tmp] eq_refl).
  - vm_compute. discriminate.
  - simpl. repeat split; lia.
  - simpl. lia.
Defined.

Lemma ro_is_known : known_option "ro" = true.
Proof. reflexivity. Qed.

Lemma filter_unknown_not_ro l :
  filter (fun o => negb (known_option o)) (filter not_ro l)
  = filter (fun o => negb (known_option o)) l.
Proof.
  induction l as [|o l IH]; [reflexivity|].
  unfold not_ro at 1. cbn [filter].
  destruct (String.eqb_spec o "ro") as [->|Hne]; cbn [negb filter].
  - rewrite ro_is_known. cbn [negb]. exact IH.
  - fold (not_ro). destruct (known_option o); cbn [negb]; now rewrite IH.
Qed.

Lemma flags_of_not_ro l :
  Z.land (flags_of (filter known_option (filter not_ro l))) (Z.lnot MS_RDONLY)
  = Z.land (flags_of (filter known_option l)) (Z.lnot MS_RDONLY).
Proof.
  induction l as [|o l IH]; [reflexivity|].
  unfold not_ro at 1. cbn [filter].
  destruct (String.eqb_spec o "ro") as [->|Hne]; cbn [negb filter].
  - rewrite ro_is_known. cbn [flags_of fold_right].
    fold (flags_of (filter known_option l)).
    rewrite Z.land_lor_distr_l.
    change (Z.land (documented_flag "ro") (Z.lnot MS_RDONLY)) with 0.
    rewrite Z.lor_0_l. exact IH.
  - fold (not_ro). destruct (known_option o); [|exact IH].
    cbn [flags_of fold_right].
    fold (flags_of (filter known_option l)).
    fold (flags_of (filter known_option (filter not_ro l))).
    now rewrite !Z.land_lor_distr_l, IH.
Qed.

(** X11.  The option "ro" has no effect on a mount: a request is mounted with
    the same flag word and the same data string as the request without its
    "ro" tokens. *)
Theorem mount_option_ro_ignored c m options :
  mnt_options m = Some options ->
  mount_flags_data c m
  = mount_flags_data c (with_options m (Some (filter not_ro options))).
Proof.
  intros Ho. unfold mount_flags_data, with_options.
  cbn [mnt_options mnt_type mnt_destination]. rewrite Ho.
  rewrite !fold_mount_options_spec, !Z.lor_0_l, filter_unknown_not_ro.
  f_equal.
  destruct (strcmp (mnt_type m) "bind" =? 0).
  - now rewrite !Z.land_lor_distr_l, flags_of_not_ro.
  - now rewrite flags_of_not_ro.
Qed.

Lemma mount_option_ro_ignored_witness :
  mount_flags_data (container (s_plan 0)) m_data
  = mount_flags_data (container (s_plan 0))
      (with_options m_data (Some ["nosuid"; "uid=7"]%string)).
Proof.
  exact (mount_option_ro_ignored (container (s_plan 0)) m_data
           ["ro"; "nosuid"; "uid=7"]%string eq_refl).
Defined.

Lemma in_26_bits_lor a b : in_26_bits a -> in_26_bits b -> in_26_bits (Z.lor a b).
Proof.
  unfold in_26_bits. intros Ha Hb. now rewrite Z.land_lor_distr_l, Ha, Hb.
Qed.

Lemma in_26_bits_land a b : in_26_bits a -> in_26_bits (Z.land a b).
Proof.
  unfold in_26_bits. intros Ha.
  rewrite <- Z.land_assoc, (Z.land_comm b), Z.land_assoc. now rewrite Ha.
Qed.

Lemma in_26_bits_range x : in_26_bits x -> 0 <= x < 2 ^ 26.
Proof.
  unfold in_26_bits. intros H. rewrite <- H.
  rewrite Z.land_ones by lia. apply Z.mod_pos_bound. lia.
Qed.

Lemma documented_flag_in_26_bits name : in_26_bits (documented_flag name).
Proof.
  unfold documented_flag, documented_option_flags. cbn [find fst].
  repeat match goal with
         | |- context [String.eqb ?a name] => destruct (String.eqb a name)
         end; reflexivity.
Qed.

Lemma flags_of_in_26_bits l : in_26_bits (flags_of l).
Proof.
  induction l as [|o l IH]; [reflexivity|].
  cbn [flags_of fold_right]. apply in_26_bits_lor; [|exact IH].
  apply documented_flag_in_26_bits.
Qed.

Lemma get_default_flags_in_26_bits c destination :
  in_26_bits (fst (get_default_flags c destination None)).
Proof.
  unfold get_default_flags.
  repeat match goal with
         | |- context [strcmp ?a ?b =? 0] => destruct (strcmp a b =? 0)
         end; reflexivity.
Qed.

(** X12.  The flag word of every mount request is a non-negative number below
    2^26: however many options are folded, it fits the [int] that holds it
    and never turns negative. *)
Theorem mount_flags_fit_int c m :
  0 <= fst (mount_flags_data c m) < 2 ^ 26.
Proof.
  apply in_26_bits_range. unfold mount_flags_data.
  assert (H : in_26_bits
                (fst (match mnt_options m with
                      | Some options => fold_mount_options options 0 None
                      | None => get_default_flags c (mnt_destination m) None
                      end))).
  { destruct (mnt_options m) as [options|].
    - rewrite fold_mount_options_spec, Z.lor_0_l. apply flags_of_in_26_bits.
    - apply get_default_flags_in_26_bits. }
  destruct (match mnt_options m with
            | Some options => fold_mount_options options 0 None
            | None => get_default_flags c (mnt_destination m) None
            end) as [flags data].
  cbn [fst] in *. apply in_26_bits_land.
  destruct (strcmp (mnt_type m) "bind" =? 0); [|exact H].
  apply in_26_bits_lor; [exact H|reflexivity].
Qed.

(* ================================================================== *)
(** * Further properties: root transition *)
(* ================================================================== *)

(** X13.  With an environment in which every call succeeds, [do_pivot] returns 0
    after exactly this sequence: open "/" and the new root, change to the
    new root, pivot "." onto ".", change back to the old root, make it
    recursively private, detach it, change to "/"; the two descriptors are
    closed on the way out, the new root's first. *)
Theorem do_pivot_sequence os rootfs s :
  all_succeed os ->
  fst (run (do_pivot os rootfs) s) = Value 0 /\
  err (snd (run (do_pivot os rootfs) s)) = err s /\
  trace (snd (run (do_pivot os rootfs) s)) =
    trace s ++
    [ open_oldroot; open_newroot rootfs;
      sys_fchdir (newrootfd os s rootfs);
      sys_pivot_root "." ".";
      sys_fchdir (oldrootfd os s);
      sys_mount "" (Some "."%string) "" (Z.lor MS_PRIVATE MS_REC) (Some ""%string);
      sys_umount2 "." MNT_DETACH;
      sys_chdir "/";
      sys_close (newrootfd os s rootfs);
      sys_close (oldrootfd os s) ].
Proof.
  intros Hos. unfold newrootfd, oldrootfd.
  remember (run (do_pivot os rootfs) s) as res eqn:E.
  unfold run, do_pivot, pivot_root in E.
  fold open_oldroot in E. fold (open_newroot rootfs) in E.
  rewrite (bind_normal _ _ _ _ _ (sys_eq os _ _)) in E.
  rewrite (bind_normal _ _ _ _ _ (sys_eq os _ _)) in E.
  unfold scoped in E. rewrite !ltb_succeed in E by succeeds.
  repeat (rewrite (bind_normal _ _ _ _ _ (sys_eq os _ _)) in E;
          rewrite ltb_succeed in E by succeeds).
  unfold return_ at 1 in E.
  rewrite (bind_normal _ _ _ _ _ (cleanup_close_open os _ _ (Hos _ _ (open_newroot_call _)))) in E.
  rewrite (cleanup_close_open os _ _ (Hos _ _ open_oldroot_call)) in E.
  subst res. cbn [fst snd trace err after_call].
  split; [reflexivity|]. split; [reflexivity|].
  rewrite <- !app_assoc. reflexivity.
Qed.

Lemma do_pivot_sequence_witness :
  trace (snd (run (do_pivot os_fds (Some "/run/root"%string)) (s_plan 0))) =
    [ open_oldroot; open_newroot (Some "/run/root"%string);
      sys_fchdir 4;
      sys_pivot_root "." ".";
      sys_fchdir 3;
      sys_mount "" (Some "."%string) "" (Z.lor MS_PRIVATE MS_REC) (Some ""%string);
      sys_umount2 "." MNT_DETACH;
      sys_chdir "/";
      sys_close 4;
      sys_close 3 ].
Proof.
  apply (do_pivot_sequence os_fds (Some "/run/root"%string) (s_plan 0)).
  intros tr c. unfold os_fds. destruct c; cbn [rv]; lia.
Defined.

(** X14.  When either root cannot be opened, [do_pivot] returns an error without
    changing directory, pivoting, mounting or unmounting: both opens have
    been made, and the one descriptor that was obtained, if any, is closed.
    The message is "open '/'" when the old root failed and names the new
    root otherwise; the status is the [errno] left by the last open that
    failed. *)
Theorem do_pivot_open_failure os rootfs s :
  oldrootfd os s < 0 \/ newrootfd os s rootfs < 0 ->
  let res := run (do_pivot os rootfs) s in
  fst res = Value (-1) /\
  trace (snd res) =
    trace s ++ [open_oldroot; open_newroot rootfs]
            ++ close_calls (newrootfd os s rootfs)
            ++ close_calls (oldrootfd os s) /\
  err (snd res) =
    Some {| err_status :=
              if newrootfd os s rootfs <? 0
              then rerrno (os (trace s ++ [open_oldroot]) (open_newroot rootfs))
              else rerrno (os (trace s) open_oldroot);
            err_msg :=
              if oldrootfd os s <? 0 then "open '/'"%string
              else "open '" +++ fmt_s rootfs +++ "'" |}.
Proof.
  unfold newrootfd, oldrootfd, close_calls. intros H. cbv zeta.
  remember (run (do_pivot os rootfs) s) as res eqn:E.
  unfold run, do_pivot in E.
  fold open_oldroot in E. fold (open_newroot rootfs) in E.
  rewrite (bind_normal _ _ _ _ _ (sys_eq os _ _)) in E.
  rewrite (bind_normal _ _ _ _ _ (sys_eq os _ _)) in E.
  unfold scoped, cleanup_close in E. cbn [trace after_call] in E.
  destruct (rv (os (trace s) open_oldroot) <? 0) eqn:E1;
    destruct (rv (os (trace s ++ [open_oldroot]) (open_newroot rootfs)) <? 0) eqn:E2;
    try (apply Z.ltb_ge in E1; apply Z.ltb_ge in E2; lia);
    unfold bind, get_errno, crun_static_error, put_err, pure, return_, bind in E;
    rewrite ?sys_eq in E; subst res;
    cbn [fst snd trace err errno after_call]; rewrite ?E1, ?E2;
    (split; [reflexivity|]); (split; [|reflexivity]);
    rewrite <- ?app_assoc; reflexivity.
Qed.

Lemma do_pivot_open_failure_witness :
  let res := run (do_pivot os_open_enoent (Some "/run/root"%string)) (s_plan 0) in
  fst res = Value (-1) /\
  trace (snd res) = [open_oldroot; open_newroot (Some "/run/root"%string)] /\
  err (snd res) = Some {| err_status := 2; err_msg := "open '/'" |}.
Proof.
  apply (do_pivot_open_failure os_open_enoent (Some "/run/root"%string) (s_plan 0)).
  left. vm_compute. reflexivity.
Defined.

Lemma set_mounts_propagation_eq def :
  match linux_rootfs_propagation def with
  | Some name => get_mount_flags name
  | None => Z.lor MS_REC MS_SLAVE
  end = root_propagation def.
Proof.
  unfold root_propagation.
  destruct (linux_rootfs_propagation def); [apply get_mount_flags_resolve|reflexivity].
Qed.

(** X15.  When the remount of / succeeds and the bind mount of the root path
    fails, [libcrun_set_mounts] stops with the error "mount rootfs" under the
    [errno] of the call: no request of the mount plan is touched and no
    pivot is attempted. *)
Theorem set_mounts_bind_failure os rootfs s :
  let def := container_def (container s) in
  0 <= rv (os (trace s) (remount_call def)) ->
  rv (os (trace s ++ [remount_call def]) (bind_root_call def rootfs)) < 0 ->
  run (libcrun_set_mounts os rootfs) s =
    (Value (-1),
     with_err (after_calls os s [remount_call def; bind_root_call def rootfs])
              (rerrno (os (trace s ++ [remount_call def]) (bind_root_call def rootfs)))
              "mount rootfs").
Proof.
  cbv zeta. unfold remount_call, bind_root_call. intros H1 H2.
  unfold run, libcrun_set_mounts. rewrite bind_get_container. cbv zeta.
  rewrite set_mounts_propagation_eq.
  rewrite (bind_normal _ _ _ _ _ (sys_eq os _ s)).
  match goal with
  | |- context [if ?x <? 0 then _ else _] => destruct (Z.ltb_spec x 0); [lia|]
  end.
  rewrite (bind_normal _ _ _ _ _ (sys_eq os _ _)).
  cbn [trace after_call].
  match goal with
  | |- context [if ?x <? 0 then _ else _] =>
      destruct (Z.ltb_spec x 0) as [_|]; [|lia]
  end.
  unfold bind, get_errno, crun_static_error, put_err, pure, return_, bind,
    with_err, after_calls.
  cbn [fst snd fold_left errno after_call trace err container].
  match goal with
  | |- context [if ?x <? 0 then _ else _] =>
      destruct (Z.ltb_spec x 0) as [_|]; [|lia]
  end.
  reflexivity.
Qed.

Lemma set_mounts_bind_failure_witness :
  run (libcrun_set_mounts os_bind_root_eperm (Some "/run/root"%string)) (s_plan 0) =
    (Value (-1),
     {| container := container (s_plan 0);
        errno := EPERM;
        err := Some {| err_status := EPERM; err_msg := "mount rootfs" |};
        trace :=
          [ sys_mount "" (Some "/"%string) "" (Z.lor MS_REC MS_SLAVE) None;
            sys_mount "rootfs" (Some "/run/root"%string) ""
                      (Z.lor MS_BIND (Z.lor MS_REC MS_SLAVE)) None ] |}).
Proof.
  apply (set_mounts_bind_failure os_bind_root_eperm (Some "/run/root"%string)
           (s_plan 0)).
  - simpl. lia.
  - simpl. lia.
Defined.

Lemma do_pivot_succeeds os rootfs s :
  all_succeed os ->
  run (do_pivot os rootfs) s
  = (Value 0, after_calls os s (pivot_calls os s rootfs)).
Proof.
  intros Hos. unfold pivot_calls, newrootfd, oldrootfd.
  remember (run (do_pivot os rootfs) s) as res eqn:E.
  unfold run, do_pivot, pivot_root in E.
  fold open_oldroot in E. fold (open_newroot rootfs) in E.
  rewrite (bind_normal _ _ _ _ _ (sys_eq os _ _)) in E.
  rewrite (bind_normal _ _ _ _ _ (sys_eq os _ _)) in E.
  unfold scoped in E. rewrite !ltb_succeed in E by succeeds.
  repeat (rewrite (bind_normal _ _ _ _ _ (sys_eq os _ _)) in E;
          rewrite ltb_succeed in E by succeeds).
  unfold return_ at 1 in E.
  rewrite (bind_normal _ _ _ _ _
             (cleanup_close_open os _ _ (Hos _ _ (open_newroot_call _)))) in E.
  rewrite (cleanup_close_open os _ _ (Hos _ _ open_oldroot_call)) in E.
  subst res. reflexivity.
Qed.

(** X16.  Where every call succeeds, [libcrun_set_mounts] makes the two mounts
    of the root and the calls of the mount plan in order; [do_mounts] ends
    there without a [return], and when the value read in its place is not
    negative the function goes on to [do_pivot], whose ten calls follow,
    returns 0 and stores no error. *)
Theorem set_mounts_success_path os rootfs s :
  all_succeed os ->
  let plan := root_and_plan_calls (container s) rootfs in
  0 <= rv (os (trace s ++ plan) leftover_value) ->
  let res := run (libcrun_set_mounts os rootfs) s in
  fst res = Value 0 /\ err (snd res) = err s /\
  trace (snd res)
  = trace s ++ plan ++ pivot_calls os (after_calls os s plan) rootfs.
Proof.
  intros Hos. cbv zeta. unfold root_and_plan_calls, remount_call, bind_root_call.
  intros Hleft.
  remember (run (libcrun_set_mounts os rootfs) s) as res eqn:E.
  unfold run, libcrun_set_mounts in E. rewrite bind_get_container in E.
  cbv zeta in E. rewrite set_mounts_propagation_eq in E.
  rewrite (bind_normal _ _ _ _ _ (sys_eq os _ s)) in E.
  rewrite ltb_succeed in E by succeeds.
  rewrite (bind_normal _ _ _ _ _ (sys_eq os _ _)) in E.
  rewrite ltb_succeed in E by succeeds.
  rewrite !after_calls_cons.
  set (s2 := after_call os (after_call os s _) _) in *.
  set (plan := flat_map (mount_calls (container s) rootfs)
                        (mounts (container_def (container s)))) in *.
  assert (D : invoke os (do_mounts os rootfs) s2
              = (Normal (rv (os (trace s2 ++ plan) leftover_value)),
                 after_calls os s2 plan)).
  { unfold invoke, run, do_mounts. rewrite bind_get_container.
    rewrite <- (app_nil_r (mounts (container_def (container s2)))) at 1.
    rewrite do_mounts_loop_prefix
      by (apply calls_succeed_all; [assumption|apply mount_calls_are_calls]).
    cbn [do_mounts_loop pure]. rewrite after_calls_trace. reflexivity. }
  rewrite (bind_normal _ _ _ _ _ D) in E.
  assert (T : trace s2 ++ plan
              = trace s ++
                sys_mount "" (Some "/"%string) ""
                  (Z.lor MS_REC (root_propagation (container_def (container s))))
                  None ::
                sys_mount (root_path (container_def (container s))) rootfs ""
                  (Z.lor (Z.lor MS_BIND MS_REC)
                         (root_propagation (container_def (container s))))
                  None :: plan).
  { subst s2. cbn [trace after_call]. now rewrite <- !app_assoc. }
  rewrite T in E.
  destruct (Z.ltb_spec
              (rv (os (trace s ++
                sys_mount "" (Some "/"%string) ""
                  (Z.lor MS_REC (root_propagation (container_def (container s))))
                  None ::
                sys_mount (root_path (container_def (container s))) rootfs ""
                  (Z.lor (Z.lor MS_BIND MS_REC)
                         (root_propagation (container_def (container s))))
                  None :: plan) leftover_value)) 0) as [|_]; [lia|].
  assert (P : invoke os (do_pivot os rootfs) (after_calls os s2 plan)
              = (Normal 0,
                 after_calls os (after_calls os s2 plan)
                   (pivot_calls os (after_calls os s2 plan) rootfs))).
  { unfold invoke. now rewrite (do_pivot_succeeds os rootfs _ Hos). }
  rewrite (bind_normal _ _ _ _ _ P) in E.
  subst res. cbn [fst snd return_ Z.ltb Z.compare].
  rewrite !after_calls_err, !after_calls_trace.
  split; [reflexivity|]. split; [reflexivity|].
  subst s2. cbn [trace after_call]. now rewrite <- !app_assoc.
Qed.

Lemma set_mounts_success_path_witness :
  let res := run (libcrun_set_mounts os_fds (Some "/run/root"%string)) (s_plan 0) in
  fst res = Value 0 /\ err (snd res) = None /\
  trace (snd res)
  = root_and_plan_calls (container (s_plan 0)) (Some "/run/root"%string) ++
    [ open_oldroot; open_newroot (Some "/run/root"%string);
      sys_fchdir 4;
      sys_pivot_root "." ".";
      sys_fchdir 3;
      sys_mount "" (Some "."%string) "" (Z.lor MS_PRIVATE MS_REC) (Some ""%string);
      sys_umount2 "." MNT_DETACH;
      sys_chdir "/";
      sys_close 4;
      sys_close 3 ].
Proof.
  apply (set_mounts_success_path os_fds (Some "/run/root"%string) (s_plan 0)).
  - intros tr c _. unfold os_fds. destruct c; cbn [rv]; lia.
  - simpl. lia.
Defined.

(* ================================================================== *)
(** * Further properties: identity mapper *)
(* ================================================================== *)

(** X17.  Whatever the environment answers, [libcrun_set_usernamespace] makes no
    call but writes to /proc/self/setgroups, /proc/self/gid_map and
    /proc/self/uid_map, each with the exact length of its content. *)
Theorem set_usernamespace_only_writes os s :
  exists added,
    trace (snd (run (libcrun_set_usernamespace os) s)) = trace s ++ added /\
    Forall id_map_write added.
Proof.
  rewrite run_snd.
  assert (H : adds id_map_write (libcrun_set_usernamespace os)).
  { unfold libcrun_set_usernamespace, call_write_file.
    repeat first
      [ apply adds_helper; simpl; split; [reflexivity|tauto]
      | adds_step ]. }
  exact (proj2 (H s)).
Qed.

(** X18.  [libcrun_set_usernamespace] makes the writes of its list in order,
    setgroups first, and stops at the first one that fails: the writes
    before it succeeded, its negative reply is the value returned at once,
    and the error stored names its file under the [errno] it left.  When no
    write fails the whole list is written, nothing is returned and no error
    is stored. *)
Theorem set_usernamespace_stops_at_failure os s :
  let res := run (libcrun_set_usernamespace os) s in
  let writes := id_map_writes (container s) in
  exists k c,
    nth_error writes k = Some c /\
    calls_succeed os (trace s) (firstn k writes) /\
    trace (snd res) = trace s ++ firstn (S k) writes /\
    let last := os (trace s ++ firstn k writes) c in
    if rv last <? 0 then
      fst res = Value (rv last) /\
      err (snd res)
      = Some {| err_status := rerrno last; err_msg := written_path c |}
    else
      S k = length writes /\ fst res = NoValue /\ err (snd res) = err s.
Proof.
  cbv zeta. unfold run, id_map_writes.
  remember (libcrun_set_usernamespace os s) as res eqn:E.
  unfold libcrun_set_usernamespace in E. rewrite bind_get_container in E.
  destruct (host_uid (container s) =? 0);
    cbv beta iota zeta in E; cbn [negb] in E;
    rewrite write_file_then in E; cbv zeta in E;
    (destruct (rv (os (trace s) (write_file "/proc/self/setgroups" "deny" 4)) <? 0)
       eqn:H0;
     [subst res; eexists 0%nat, _; split; [reflexivity|];
      cbn [firstn calls_succeed]; rewrite app_nil_r, H0;
      cbn [fst snd trace err with_err after_call written_path]; now repeat split|]);
    apply Z.ltb_ge in H0; unfold bind at 1 in E.
  - unfold pure at 1 in E. rewrite write_file_then in E. cbv zeta in E.
    cbn [trace after_call] in E.
    eexists 1%nat, _; split; [reflexivity|].
    cbn [firstn calls_succeed].
    destruct (rv (os (trace s ++ [write_file "/proc/self/setgroups" "deny" 4])
                     (write_file "/proc/self/uid_map" "0 0 65536"
                        (strlen "0 0 65536"))) <? 0) eqn:H1;
      subst res; change (strlen "0 0 65536") with 9 in *; rewrite ?H1;
      cbn [fst snd trace err with_err after_call written_path length pure];
      rewrite <- ?app_assoc; now repeat split.
  - rewrite write_file_then in E. cbv zeta in E. cbn [trace after_call] in E.
    match type of E with
    | context [if ?x <? 0 then _ else _] => destruct (x <? 0) eqn:H1
    end.
    { subst res. eexists 1%nat, _; split; [reflexivity|].
      cbn [firstn calls_succeed]. rewrite H1.
      cbn [fst snd trace err with_err after_call written_path].
      rewrite <- ?app_assoc. now repeat split. }
    apply Z.ltb_ge in H1.
    unfold pure at 1 in E. rewrite write_file_then in E. cbv zeta in E.
    cbn [trace after_call] in E. rewrite <- app_assoc in E. cbn [app] in E.
    eexists 2%nat, _; split; [reflexivity|].
    cbn [firstn calls_succeed].
    match type of E with
    | context [if ?x <? 0 then _ else _] => destruct (x <? 0) eqn:H2
    end; subst res; rewrite ?H2;
      cbn [fst snd trace err with_err after_call written_path length pure];
      rewrite <- ?app_assoc; now repeat split.
Qed.

Example set_usernamespace_gid_map_refused :
  run (libcrun_set_usernamespace os_gid_map_eperm) (s_plan 1000)
  = (Value (-1),
     {| container := container (s_plan 1000);
        errno := EPERM;
        err := Some {| err_status := EPERM; err_msg := "/proc/self/gid_map" |};
        trace := [ write_file "/proc/self/setgroups" "deny" 4;
                   write_file "/proc/self/gid_map" "0 1000 1" 8 ] |}).
Proof. reflexivity. Qed.

(* ================================================================== *)
(** * Further properties: capability manager *)
(* ================================================================== *)

Lemma testbit_one k : Z.testbit 1 k = (k =? 0).
Proof.
  destruct (Z.eqb_spec k 0) as [->|Hk]; [reflexivity|].
  destruct (Z.lt_ge_cases k 0) as [Hn|Hp].
  - now apply Z.testbit_neg_r.
  - apply Z.bits_above_log2; simpl; lia.
Qed.

Lemma land_bit n m :
  0 <= n -> Z.land (Z.shiftl 1 n) m = if Z.testbit m n then Z.shiftl 1 n else 0.
Proof.
  intros Hn. apply Z.bits_inj'. intros k Hk.
  rewrite Z.land_spec, Z.shiftl_spec by lia. rewrite testbit_one.
  destruct (Z.eqb_spec (k - n) 0) as [E|E].
  - replace k with n by lia.
    destruct (Z.testbit m n); cbn [andb].
    + rewrite Z.shiftl_spec by lia. replace (n - n) with 0 by lia. reflexivity.
    + now rewrite Z.bits_0.
  - cbn [andb]. destruct (Z.testbit m n).
    + rewrite Z.shiftl_spec by lia. rewrite testbit_one.
      destruct (Z.eqb_spec (k - n) 0); [contradiction|reflexivity].
    + now rewrite Z.bits_0.
Qed.

Lemma shiftl_one_nonzero n : 0 <= n -> Z.shiftl 1 n <> 0.
Proof.
  intros Hn. rewrite Z.shiftl_mul_pow2 by lia.
  pose proof (Z.pow_pos_nonneg 2 n). lia.
Qed.

Lemma land_low cap : 0 <= cap < 32 -> Z.land cap 31 = cap.
Proof.
  intros H. change 31 with (Z.ones 5). rewrite Z.land_ones by lia.
  apply Z.mod_small. simpl. lia.
Qed.

Lemma mask_test (mask : Z * Z) cap :
  0 <= cap < 64 ->
  (if cap <? 32 then Z.land (CAP_TO_MASK_0 cap) (fst mask) =? 0
   else Z.land (CAP_TO_MASK_1 cap) (snd mask) =? 0)
  = negb (cap_in mask cap).
Proof.
  intros H. unfold cap_in, CAP_TO_MASK_1, CAP_TO_MASK_0.
  destruct (Z.ltb_spec cap 32).
  - rewrite land_low by lia. rewrite land_bit by lia.
    destruct (Z.testbit (fst mask) cap); [|reflexivity].
    destruct (Z.eqb_spec (Z.shiftl 1 cap) 0) as [E|]; [|reflexivity].
    now apply shiftl_one_nonzero in E; [|lia].
  - rewrite land_low by lia. rewrite land_bit by lia.
    destruct (Z.testbit (snd mask) (cap - 32)); [|reflexivity].
    destruct (Z.eqb_spec (Z.shiftl 1 (cap - 32)) 0) as [E|]; [|reflexivity].
    now apply shiftl_one_nonzero in E; [|lia].
Qed.

Lemma raise_test mask cap :
  0 <= cap < 64 ->
  ((cap <? 32) && negb (Z.land (CAP_TO_MASK_0 cap) (fst mask) =? 0))
  || ((32 <=? cap) && negb (Z.land (CAP_TO_MASK_1 cap) (snd mask) =? 0))
  = cap_in mask cap.
Proof.
  intros H. pose proof (mask_test mask cap H) as M.
  destruct (Z.ltb_spec cap 32); destruct (Z.leb_spec 32 cap); try lia;
    cbn [andb orb]; rewrite M, ?negb_involutive, ?orb_false_r; reflexivity.
Qed.

Lemma drop_test mask cap :
  0 <= cap < 64 ->
  ((cap <? 32) && (Z.land (CAP_TO_MASK_0 cap) (fst mask) =? 0))
  || ((32 <=? cap) && (Z.land (CAP_TO_MASK_1 cap) (snd mask) =? 0))
  = negb (cap_in mask cap).
Proof.
  intros H. pose proof (mask_test mask cap H) as M.
  destruct (Z.ltb_spec cap 32); destruct (Z.leb_spec 32 cap); try lia;
    cbn [andb orb]; rewrite M, ?orb_false_r; reflexivity.
Qed.

Lemma all_cap_numbers_range last_cap cap :
  In cap (all_cap_numbers last_cap) -> 0 <= cap <= last_cap.
Proof.
  unfold all_cap_numbers. rewrite in_map_iff.
  intros [n [<- Hn]]. apply in_seq in Hn. lia.
Qed.

(** One best-effort [prctl] in a tolerable environment. *)
Lemma prctl_tolerated os c msg s :
  tolerable os -> best_effort c = true ->
  (ret <- sys os c ;;
   e <- get_errno ;;
   if prctl_fatal ret e then v <- crun_static_error e msg ;; return_ v
   else pure tt) s
  = (Normal tt, after_call os s c).
Proof.
  intros H Hc. rewrite (bind_normal _ _ _ _ _ (sys_eq os c s)).
  rewrite bind_get_errno. cbn [errno after_call].
  assert (F : prctl_fatal (rv (os (trace s) c))
                (if rv (os (trace s) c) <? 0 then rerrno (os (trace s) c) else errno s)
              = false).
  { unfold prctl_fatal. destruct (Z.ltb_spec (rv (os (trace s) c)) 0) as [Hn|]; [|reflexivity].
    destruct (H (trace s) c) as [Hp|[_ [-> | ->]]]; [lia| |]; reflexivity. }
  now rewrite F.
Qed.

Lemma raise_ambient_tolerated os caps l :
  tolerable os -> (forall cap, In cap l -> 0 <= cap < 64) ->
  forall s,
    raise_ambient os caps l s
    = (Normal tt,
       after_calls os s (map ambient_raise_call (filter (cap_in (ambient caps)) l))).
Proof.
  intros H. induction l as [|cap l IH]; intros Hl s; [reflexivity|].
  cbn [raise_ambient filter].
  rewrite raise_test by (apply Hl; now left).
  assert (Hl' : forall c, In c l -> 0 <= c < 64) by (intros c Hc; apply Hl; now right).
  destruct (cap_in (ambient caps) cap).
  - rewrite (bind_normal _ _ _ _ _
               (prctl_tolerated os (ambient_raise_call cap) _ s H eq_refl)).
    now rewrite IH.
  - rewrite (bind_normal _ _ _ tt s eq_refl). now rewrite IH.
Qed.

Lemma drop_bounding_tolerated os caps l :
  tolerable os -> (forall cap, In cap l -> 0 <= cap < 64) ->
  forall s,
    drop_bounding os caps l s
    = (Normal tt,
       after_calls os s
         (map bounding_drop_call
              (filter (fun cap => negb (cap_in (bounding caps) cap)) l))).
Proof.
  intros H. induction l as [|cap l IH]; intros Hl s; [reflexivity|].
  cbn [drop_bounding filter].
  rewrite drop_test by (apply Hl; now left).
  assert (Hl' : forall c, In c l -> 0 <= c < 64) by (intros c Hc; apply Hl; now right).
  destruct (negb (cap_in (bounding caps) cap)).
  - rewrite (bind_normal _ _ _ _ _
               (prctl_tolerated os (bounding_drop_call cap) _ s H eq_refl)).
    now rewrite IH.
  - rewrite (bind_normal _ _ _ tt s eq_refl). now rewrite IH.
Qed.

Lemma tolerable_success os tr c :
  tolerable os -> best_effort c = false -> (rv (os tr c) <? 0) = false.
Proof.
  intros H Hc. destruct (H tr c) as [Hp|[Hb _]]; [|congruence].
  destruct (Z.ltb_spec (rv (os tr c)) 0); [lia|reflexivity].
Qed.

(** X19.  In an environment where the calls on the ambient and the bounding set
    may fail with [EINVAL] or [EPERM] and every other call succeeds,
    [set_required_caps] returns 0 after exactly this sequence: clear the
    ambient set; raise, in increasing order, each capability up to
    CAP_LAST_CAP whose bit is set in the ambient mask; drop, in increasing
    order, each capability up to CAP_LAST_CAP whose bit is not set in the
    bounding mask; [capset]; and, when asked for, no-new-privileges. *)
Theorem set_required_caps_sequence os last_cap caps no_new_privs s :
  tolerable os -> last_cap < 64 ->
  run (set_required_caps os last_cap caps no_new_privs) s =
    (Value 0, after_calls os s (required_caps_calls last_cap caps no_new_privs)).
Proof.
  intros H Hl.
  assert (Hr : forall cap, In cap (all_cap_numbers last_cap) -> 0 <= cap < 64).
  { intros cap Hc. apply all_cap_numbers_range in Hc. lia. }
  unfold run, set_required_caps, required_caps_calls.
  fold ambient_clear_call. fold (capset_call caps).
  assert (C : forall (k : M unit) st,
             (ret <- sys os ambient_clear_call ;;
              e <- get_errno ;;
              if prctl_fatal ret e then
                v <- crun_static_error e "prctl reset ambient" ;; return_ v
              else k) st
             = k (after_call os st ambient_clear_call)).
  { intros k st. rewrite (bind_normal _ _ _ _ _ (sys_eq os _ st)).
    rewrite bind_get_errno. cbn [errno after_call].
    unfold prctl_fatal.
    destruct (Z.ltb_spec (rv (os (trace st) ambient_clear_call)) 0) as [Hn|];
      [|reflexivity].
    destruct (H (trace st) ambient_clear_call) as [Hp|[_ [-> | ->]]];
      [lia| |]; reflexivity. }
  rewrite C.
  rewrite (bind_normal _ _ _ _ _ (raise_ambient_tolerated os caps _ H Hr _)).
  rewrite (bind_normal _ _ _ _ _ (drop_bounding_tolerated os caps _ H Hr _)).
  rewrite (bind_normal _ _ _ _ _ (sys_eq os (capset_call caps) _)).
  assert (T : forall r, ((if r <? 0 then 1 else 0) <? 0) = false)
    by (intros r; destruct (r <? 0); reflexivity).
  rewrite T.
  rewrite after_calls_cons, !after_calls_app, after_calls_cons.
  destruct no_new_privs.
  - fold no_new_privs_call.
    rewrite (bind_normal _ _ _ _ _ (sys_eq os no_new_privs_call _)).
    rewrite (tolerable_success os _ no_new_privs_call H eq_refl).
    reflexivity.
  - reflexivity.
Qed.

Lemma set_required_caps_sequence_witness :
  run (set_required_caps os_unprivileged 37 caps_net_bind true) (s_plan 0) =
    (Value 0,
     after_calls os_unprivileged (s_plan 0)
       (required_caps_calls 37 caps_net_bind true)).
Proof.
  apply (set_required_caps_sequence os_unprivileged 37 caps_net_bind true (s_plan 0)).
  - intros tr c. unfold os_unprivileged.
    destruct c; try (left; simpl; lia).
    destruct option as [|p|p]; try (left; simpl; lia).
    destruct (Pos.eq_dec p 47) as [->|H47].
    + right. simpl. auto.
    + destruct (Pos.eq_dec p 24) as [->|H24].
      * right. simpl. auto.
      * left.
        repeat (destruct p as [p|p|]; try (simpl; lia); try congruence).
  - lia.
Defined.

Example required_caps_calls_net_bind :
  required_caps_calls 37 caps_net_bind false
  = ambient_clear_call :: ambient_raise_call 10 ::
    map bounding_drop_call
        [0; 1; 2; 3; 4; 5; 6; 7; 8; 9; 11; 12; 13; 14; 15; 16; 17; 18; 19; 20;
         21; 22; 23; 24; 25; 26; 27; 28; 29; 30; 31; 32; 33; 34; 35; 36; 37]
    ++ [capset_call caps_net_bind].
Proof. reflexivity. Qed.

Lemma raise_ambient_adds os last_cap caps nnp l :
  (forall cap, In cap l -> 0 <= cap <= last_cap) ->
  adds (required_caps_call last_cap caps nnp) (raise_ambient os caps l).
Proof.
  induction l as [|cap l IH]; intros Hl; cbn [raise_ambient].
  - apply adds_pure.
  - apply adds_bind; [|intros _; apply IH; intros c Hc; apply Hl; now right].
    repeat first
      [ apply adds_sys; right; left; exists cap; split;
        [reflexivity|apply Hl; now left]
      | adds_step ].
Qed.

Lemma drop_bounding_adds os last_cap caps nnp l :
  (forall cap, In cap l -> 0 <= cap <= last_cap) ->
  adds (required_caps_call last_cap caps nnp) (drop_bounding os caps l).
Proof.
  induction l as [|cap l IH]; intros Hl; cbn [drop_bounding].
  - apply adds_pure.
  - apply adds_bind; [|intros _; apply IH; intros c Hc; apply Hl; now right].
    repeat first
      [ apply adds_sys; right; right; left; exists cap; split;
        [reflexivity|apply Hl; now left]
      | adds_step ].
Qed.

(** X20.  Whatever the environment answers, [set_required_caps] calls nothing but
    the clearing of the ambient set, the raising and the dropping of
    capabilities numbered from 0 to CAP_LAST_CAP, the one [capset] of the
    three masks, and no-new-privileges, the last only when it is asked for;
    it leaves the container record alone. *)
Theorem set_required_caps_calls os last_cap caps no_new_privs s :
  container (snd (run (set_required_caps os last_cap caps no_new_privs) s))
  = container s /\
  exists added,
    trace (snd (run (set_required_caps os last_cap caps no_new_privs) s))
    = trace s ++ added /\
    Forall (required_caps_call last_cap caps no_new_privs) added.
Proof.
  rewrite run_snd.
  assert (H : adds (required_caps_call last_cap caps no_new_privs)
                   (set_required_caps os last_cap caps no_new_privs)).
  { unfold set_required_caps. fold (capset_call caps).
    fold ambient_clear_call. fold no_new_privs_call.
    repeat first
      [ apply (raise_ambient_adds os last_cap caps no_new_privs);
        apply all_cap_numbers_range
      | apply (drop_bounding_adds os last_cap caps no_new_privs);
        apply all_cap_numbers_range
      | apply adds_sys; left; reflexivity
      | apply adds_sys; right; right; right; left; reflexivity
      | apply adds_sys; right; right; right; right; split; reflexivity
      | adds_step ]. }
  exact (H s).
Qed.

(* ================================================================== *)
(** * Further properties: capability names *)
(* ================================================================== *)

Lemma testbit_lor_bit a n k :
  0 <= n -> Z.testbit (Z.lor a (Z.shiftl 1 n)) k = Z.testbit a k || (k =? n).
Proof.
  intros Hn. destruct (Z.lt_ge_cases k 0) as [Hk|Hk].
  - rewrite !Z.testbit_neg_r by lia.
    destruct (Z.eqb_spec k n); [lia|reflexivity].
  - rewrite Z.lor_spec, Z.shiftl_spec by lia. rewrite testbit_one.
    destruct (Z.eqb_spec (k - n) 0), (Z.eqb_spec k n); try lia; reflexivity.
Qed.

Lemma cap_in_set_low (caps : Z * Z) cap k :
  0 <= cap < 32 ->
  cap_in (Z.lor (fst caps) (CAP_TO_MASK_0 cap), snd caps) k
  = cap_in caps k || (cap =? k).
Proof.
  intros H. unfold cap_in, CAP_TO_MASK_0. cbn [fst snd].
  rewrite land_low by lia.
  destruct (Z.ltb_spec k 32).
  - rewrite testbit_lor_bit by lia. now rewrite (Z.eqb_sym cap k).
  - destruct (Z.eqb_spec cap k); [lia|]. now rewrite orb_false_r.
Qed.

Lemma cap_in_set_high (caps : Z * Z) cap k :
  32 <= cap < 64 ->
  cap_in (fst caps, Z.lor (snd caps) (CAP_TO_MASK_1 cap)) k
  = cap_in caps k || (cap =? k).
Proof.
  intros H. unfold cap_in, CAP_TO_MASK_1, CAP_TO_MASK_0. cbn [fst snd].
  rewrite land_low by lia.
  destruct (Z.ltb_spec k 32).
  - destruct (Z.eqb_spec cap k); [lia|]. now rewrite orb_false_r.
  - rewrite testbit_lor_bit by lia.
    destruct (Z.eqb_spec (k - 32) (cap - 32)), (Z.eqb_spec cap k); try lia;
      reflexivity.
Qed.

(** X22.  [read_caps] on names that all resolve returns 0, leaves the state as it
    is, and sets in the mask exactly the bits of the capabilities the names
    stand for: a bit of the result is set when it was set before or when a
    name of the list stands for it. *)
Theorem read_caps_sets_bits cap_from_name values :
  all_resolve cap_from_name values ->
  forall caps s,
    exists caps',
      read_caps cap_from_name caps values s = (Normal (0, caps'), s) /\
      forall k, cap_in caps' k = cap_in caps k || names_cap cap_from_name values k.
Proof.
  induction values as [|v values IH]; intros Hr caps s.
  - exists caps. split; [reflexivity|]. intros k. cbn. now rewrite orb_false_r.
  - destruct (Hr v (or_introl eq_refl)) as [cap [Ec Hc]].
    assert (Hr' : all_resolve cap_from_name values)
      by (intros x Hx; apply Hr; now right).
    cbn [read_caps]. rewrite Ec.
    destruct (Z.ltb_spec cap 32).
    + destruct (IH Hr' (Z.lor (fst caps) (CAP_TO_MASK_0 cap), snd caps) s)
        as [caps' [E B]].
      exists caps'. split; [exact E|]. intros k.
      rewrite B, cap_in_set_low by lia.
      unfold names_cap. cbn [existsb]. rewrite Ec. now rewrite orb_assoc.
    + destruct (IH Hr' (fst caps, Z.lor (snd caps) (CAP_TO_MASK_1 cap)) s)
        as [caps' [E B]].
      exists caps'. split; [exact E|]. intros k.
      rewrite B, cap_in_set_high by lia.
      unfold names_cap. cbn [existsb]. rewrite Ec. now rewrite orb_assoc.
Qed.

Lemma read_caps_sets_bits_witness :
  exists caps',
    read_caps cap_names_sample (0, 0) (cap_bounding caps_sample) (s_plan 0)
    = (Normal (0, caps'), s_plan 0) /\
    forall k, cap_in caps' k
              = cap_in (0, 0) k || names_cap cap_names_sample (cap_bounding caps_sample) k.
Proof.
  apply (read_caps_sets_bits cap_names_sample (cap_bounding caps_sample)).
  intros v H. simpl in H.
  repeat (destruct H as [<-|H]; [eexists; split; [reflexivity|lia]|]).
  destruct H.
Defined.

Example read_caps_bounding_sample :
  read_caps cap_names_sample (0, 0) (cap_bounding caps_sample) (s_plan 0)
  = (Normal (0, (Z.lor 1 (Z.lor (Z.shiftl 1 5) (Z.shiftl 1 10)), Z.shiftl 1 2)),
     s_plan 0).
Proof. reflexivity. Qed.

Lemma read_caps_cases cap_from_name values :
  forall caps s,
    (exists caps',
        read_caps cap_from_name caps values s = (Normal (0, caps'), s)) \/
    (exists caps' bad,
        read_caps cap_from_name caps values s
        = (Normal (-1, caps'), with_err s 0 ("unknown cap: " +++ bad)) /\
        In bad values /\ cap_from_name bad = None).
Proof.
  induction values as [|v values IH]; intros caps s.
  - left. now exists caps.
  - cbn [read_caps]. destruct (cap_from_name v) as [cap|] eqn:Ec.
    + destruct (cap <? 32).
      * destruct (IH (Z.lor (fst caps) (CAP_TO_MASK_0 cap), snd caps) s)
          as [[caps' E]|[caps' [bad [E [Hin Hb]]]]].
        -- left. now exists caps'.
        -- right. exists caps', bad. split; [exact E|]. split; [now right|exact Hb].
      * destruct (IH (fst caps, Z.lor (snd caps) (CAP_TO_MASK_1 cap)) s)
          as [[caps' E]|[caps' [bad [E [Hin Hb]]]]].
        -- left. now exists caps'.
        -- right. exists caps', bad. split; [exact E|]. split; [now right|exact Hb].
    + right. exists caps, v. split; [reflexivity|]. split; [now left|exact Ec].
Qed.

Lemma read_caps_resolved cap_from_name values :
  forall caps caps' s s',
    read_caps cap_from_name caps values s = (Normal (0, caps'), s') ->
    forall v, In v values -> cap_from_name v <> None.
Proof.
  induction values as [|v values IH]; intros caps caps' s s' E x Hx; [destruct Hx|].
  cbn [read_caps] in E. destruct (cap_from_name v) as [cap|] eqn:Ec.
  - destruct Hx as [<-|Hx]; [congruence|].
    destruct (cap <? 32); eapply IH; eauto.
  - discriminate E.
Qed.

(** X23.  Capability names are all resolved before anything is changed: when a
    name of the capabilities section is unknown, [libcrun_set_caps] returns
    -1 with the message "unknown cap: <name>" for an unknown name of the
    section, and makes no call at all. *)
Theorem set_caps_unknown_name os last_cap cap_from_name process capabilities s :
  process_capabilities process = Some capabilities ->
  (exists v, In v (capability_names capabilities) /\ cap_from_name v = None) ->
  let res := run (libcrun_set_caps os last_cap cap_from_name process) s in
  fst res = Value (-1) /\
  trace (snd res) = trace s /\
  exists bad,
    In bad (capability_names capabilities) /\ cap_from_name bad = None /\
    err (snd res) = Some {| err_status := 0; err_msg := "unknown cap: " +++ bad |}.
Proof.
  intros Hp [v [Hv Hn]]. cbv zeta. unfold capability_names in *.
  remember (run (libcrun_set_caps os last_cap cap_from_name process) s) as res eqn:E.
  unfold run, libcrun_set_caps in E. rewrite Hp in E.
  repeat match type of E with
  | context [bind (read_caps cap_from_name ?c ?l) ?k s] =>
      let caps' := fresh "caps" in
      let bad := fresh "bad" in
      let R := fresh "R" in
      let Hin := fresh "Hin" in
      let Hb := fresh "Hb" in
      destruct (read_caps_cases cap_from_name l c s)
        as [[caps' R]|[caps' [bad [R [Hin Hb]]]]];
      [ rewrite (bind_normal _ _ _ _ _ R) in E; cbn [fst snd] in E;
        change (0 <? 0) with false in E; cbv iota in E;
        pose proof (read_caps_resolved _ _ _ _ _ _ R)
      | rewrite (bind_normal _ _ _ _ _ R) in E; cbn [fst snd] in E;
        change (-1 <? 0) with true in E; cbv iota in E;
        subst res; cbn [fst snd return_ trace err with_err];
        split; [reflexivity|]; split; [reflexivity|];
        exists bad; split; [|split; [exact Hb|reflexivity]];
        rewrite !in_app_iff; tauto ]
  end.
  exfalso. rewrite !in_app_iff in Hv.
  destruct Hv as [Hv|[Hv|[Hv|[Hv|Hv]]]];
    match goal with
    | K : forall x, In x ?l -> cap_from_name x <> None, Hv : In v ?l |- _ =>
        exact (K v Hv Hn)
    end.
Qed.

Lemma set_caps_unknown_name_witness :
  let res := run (libcrun_set_caps os_ok 37 cap_names_sample
                    {| process_capabilities := Some caps_typo;
                       process_no_new_privileges := true |}) (s_plan 0) in
  fst res = Value (-1) /\
  trace (snd res) = trace (s_plan 0) /\
  exists bad,
    In bad (capability_names caps_typo) /\ cap_names_sample bad = None /\
    err (snd res) = Some {| err_status := 0; err_msg := "unknown cap: " +++ bad |}.
Proof.
  apply (set_caps_unknown_name os_ok 37 cap_names_sample
           {| process_capabilities := Some caps_typo;
              process_no_new_privileges := true |} caps_typo (s_plan 0) eq_refl).
  exists "CAP_KIL"%string. split; [simpl; tauto|reflexivity].
Defined.

Lemma cap_in_zero k : cap_in (0, 0) k = false.
Proof. unfold cap_in. cbn [fst snd]. destruct (k <? 32); apply Z.bits_0. Qed.

Lemma filter_none {A} (f : A -> bool) l :
  (forall x, f x = false) -> filter f l = [].
Proof.
  intros H. induction l as [|x l IH]; [reflexivity|].
  cbn [filter]. now rewrite H.
Qed.

Lemma filter_all {A} (f : A -> bool) l :
  (forall x, f x = true) -> filter f l = l.
Proof.
  intros H. induction l as [|x l IH]; [reflexivity|].
  cbn [filter]. now rewrite H, IH.
Qed.

Lemma invoke_required_caps os last_cap caps nnp s :
  tolerable os -> last_cap < 64 ->
  invoke os (set_required_caps os last_cap caps nnp) s
  = (Normal 0, after_calls os s (required_caps_calls last_cap caps nnp)).
Proof.
  intros H Hl. unfold invoke.
  now rewrite set_required_caps_sequence.
Qed.

(** X24.  A definition without a capabilities section gives up everything: in a
    tolerable environment [libcrun_set_caps] clears the ambient set, raises
    nothing, drops every capability from 0 to CAP_LAST_CAP from the bounding
    set and hands empty masks to [capset]. *)
Theorem set_caps_without_section os last_cap cap_from_name process s :
  process_capabilities process = None ->
  tolerable os -> last_cap < 64 ->
  run (libcrun_set_caps os last_cap cap_from_name process) s =
    (Value 0,
     after_calls os s
       (ambient_clear_call ::
        map bounding_drop_call (all_cap_numbers last_cap) ++
        capset_call zero_caps ::
        (if process_no_new_privileges process then [no_new_privs_call] else []))).
Proof.
  intros Hp H Hl. unfold run, libcrun_set_caps. rewrite Hp.
  fold zero_caps.
  rewrite (bind_normal _ _ _ _ _ (invoke_required_caps os last_cap zero_caps _ s H Hl)).
  unfold required_caps_calls, zero_caps at 1 2. cbn [ambient bounding].
  rewrite (filter_none _ _ cap_in_zero).
  rewrite filter_all by (intros x; now rewrite cap_in_zero).
  reflexivity.
Qed.

Lemma set_caps_without_section_witness :
  run (libcrun_set_caps os_unprivileged 37 cap_names_sample
         {| process_capabilities := None; process_no_new_privileges := false |})
      (s_plan 0) =
    (Value 0,
     after_calls os_unprivileged (s_plan 0)
       (ambient_clear_call ::
        map bounding_drop_call (all_cap_numbers 37) ++ [capset_call zero_caps])).
Proof.
  apply (set_caps_without_section os_unprivileged 37 cap_names_sample
           {| process_capabilities := None; process_no_new_privileges := false |}
           (s_plan 0) eq_refl).
  - intros tr c. unfold os_unprivileged.
    destruct c; try (left; simpl; lia).
    destruct option as [|p|p]; try (left; simpl; lia).
    destruct (Pos.eq_dec p 47) as [->|H47].
    + right. simpl. auto.
    + destruct (Pos.eq_dec p 24) as [->|H24].
      * right. simpl. auto.
      * left.
        repeat (destruct p as [p|p|]; try (simpl; lia); try congruence).
  - lia.
Defined.

(** X25.  Each set of names ends in the mask of its own category: when all the
    names resolve, [libcrun_set_caps] runs [set_required_caps] on masks in
    which a bit is set exactly when a name of the effective, permitted,
    inheritable, ambient or bounding list, respectively, stands for it, and
    with the no-new-privileges flag of the definition. *)
Theorem set_caps_masks os last_cap cap_from_name process capabilities s :
  process_capabilities process = Some capabilities ->
  all_resolve cap_from_name (capability_names capabilities) ->
  tolerable os -> last_cap < 64 ->
  exists caps,
    run (libcrun_set_caps os last_cap cap_from_name process) s =
      (Value 0,
       after_calls os s
         (required_caps_calls last_cap caps (process_no_new_privileges process))) /\
    forall k,
      cap_in (effective caps) k = names_cap cap_from_name (cap_effective capabilities) k /\
      cap_in (permitted caps) k = names_cap cap_from_name (cap_permitted capabilities) k /\
      cap_in (inheritable caps) k = names_cap cap_from_name (cap_inheritable capabilities) k /\
      cap_in (ambient caps) k = names_cap cap_from_name (cap_ambient capabilities) k /\
      cap_in (bounding caps) k = names_cap cap_from_name (cap_bounding capabilities) k.
Proof.
  intros Hp Hr H Hl. unfold capability_names in Hr.
  assert (R : forall l, (forall v, In v l -> In v (cap_effective capabilities ++
                 cap_inheritable capabilities ++ cap_ambient capabilities ++
                 cap_bounding capabilities ++ cap_permitted capabilities)) ->
              exists caps',
                read_caps cap_from_name (0, 0) l s = (Normal (0, caps'), s) /\
                forall k, cap_in caps' k = names_cap cap_from_name l k).
  { intros l Hin.
    destruct (read_caps_sets_bits cap_from_name l
                (fun v Hv => Hr v (Hin v Hv)) (0, 0) s) as [caps' [E B]].
    exists caps'. split; [exact E|]. intros k. now rewrite B, cap_in_zero. }
  destruct (R (cap_effective capabilities)) as [eff [Ee Be]];
    [intros v Hv; rewrite !in_app_iff; tauto|].
  destruct (R (cap_inheritable capabilities)) as [inh [Ei Bi]];
    [intros v Hv; rewrite !in_app_iff; tauto|].
  destruct (R (cap_ambient capabilities)) as [amb [Ea Ba]];
    [intros v Hv; rewrite !in_app_iff; tauto|].
  destruct (R (cap_bounding capabilities)) as [bnd [Eb Bb]];
    [intros v Hv; rewrite !in_app_iff; tauto|].
  destruct (R (cap_permitted capabilities)) as [per [Ep Bp]];
    [intros v Hv; rewrite !in_app_iff; tauto|].
  exists {| effective := eff; permitted := per; inheritable := inh;
            ambient := amb; bounding := bnd |}.
  split.
  - unfold run, libcrun_set_caps. rewrite Hp.
    rewrite (bind_normal _ _ _ _ _ Ee). cbn [fst snd].
    change (0 <? 0) with false. cbv iota.
    rewrite (bind_normal _ _ _ _ _ Ei). cbn [fst snd].
    change (0 <? 0) with false. cbv iota.
    rewrite (bind_normal _ _ _ _ _ Ea). cbn [fst snd].
    change (0 <? 0) with false. cbv iota.
    rewrite (bind_normal _ _ _ _ _ Eb). cbn [fst snd].
    change (0 <? 0) with false. cbv iota.
    rewrite (bind_normal _ _ _ _ _ Ep). cbn [fst snd].
    change (0 <? 0) with false. cbv iota.
    rewrite (bind_normal _ _ _ _ _ (invoke_required_caps os last_cap _ _ s H Hl)).
    reflexivity.
  - intros k. cbn [effective permitted inheritable ambient bounding]. auto.
Qed.

Lemma set_caps_masks_witness :
  exists caps,
    run (libcrun_set_caps os_unprivileged 37 cap_names_sample
           {| process_capabilities := Some caps_sample;
              process_no_new_privileges := true |}) (s_plan 0) =
      (Value 0,
       after_calls os_unprivileged (s_plan 0) (required_caps_calls 37 caps true)) /\
    forall k,
      cap_in (effective caps) k = names_cap cap_names_sample (cap_effective caps_sample) k /\
      cap_in (permitted caps) k = names_cap cap_names_sample (cap_permitted caps_sample) k /\
      cap_in (inheritable caps) k = names_cap cap_names_sample (cap_inheritable caps_sample) k /\
      cap_in (ambient caps) k = names_cap cap_names_sample (cap_ambient caps_sample) k /\
      cap_in (bounding caps) k = names_cap cap_names_sample (cap_bounding caps_sample) k.
Proof.
  apply (set_caps_masks os_unprivileged 37 cap_names_sample
           {| process_capabilities := Some caps_sample;
              process_no_new_privileges := true |} caps_sample (s_plan 0) eq_refl).
  - intros v Hv. simpl in Hv.
    repeat (destruct Hv as [<-|Hv]; [eexists; split; [reflexivity|lia]|]).
    destruct Hv.
  - intros tr c. unfold os_unprivileged.
    destruct c; try (left; simpl; lia).
    destruct option as [|p|p]; try (left; simpl; lia).
    destruct (Pos.eq_dec p 47) as [->|H47].
    + right. simpl. auto.
    + destruct (Pos.eq_dec p 24) as [->|H24].
      * right. simpl. auto.
      * left.
        repeat (destruct p as [p|p|]; try (simpl; lia); try congruence).
  - lia.
Defined.

(** X21.  Only [EINVAL] and [EPERM] are forgiven: when the clearing of the
    ambient set fails with any other [errno], [set_required_caps] stops at
    once with the error "prctl reset ambient" under that [errno], before any
    capability is raised or dropped and before [capset]. *)
Theorem set_required_caps_clear_fatal os last_cap caps no_new_privs s :
  rv (os (trace s) ambient_clear_call) < 0 ->
  rerrno (os (trace s) ambient_clear_call) <> EINVAL ->
  rerrno (os (trace s) ambient_clear_call) <> EPERM ->
  run (set_required_caps os last_cap caps no_new_privs) s =
    (Value (-1),
     with_err (after_call os s ambient_clear_call)
              (rerrno (os (trace s) ambient_clear_call)) "prctl reset ambient").
Proof.
  intros Hf H1 H2. unfold run, set_required_caps. fold ambient_clear_call.
  rewrite (bind_normal _ _ _ _ _ (sys_eq os _ s)).
  rewrite bind_get_errno. cbn [errno after_call].
  unfold prctl_fatal.
  destruct (Z.ltb_spec (rv (os (trace s) ambient_clear_call)) 0) as [_|]; [|lia].
  destruct (Z.eqb_spec (rerrno (os (trace s) ambient_clear_call)) EINVAL);
    [contradiction|].
  destruct (Z.eqb_spec (rerrno (os (trace s) ambient_clear_call)) EPERM);
    [contradiction|].
  reflexivity.
Qed.

Lemma set_required_caps_clear_fatal_witness :
  run (set_required_caps os_clear_enomem 37 caps_net_bind true) (s_plan 0) =
    (Value (-1),
     {| container := container (s_plan 0);
        errno := 12;
        err := Some {| err_status := 12; err_msg := "prctl reset ambient" |};
        trace := [ambient_clear_call] |}).
Proof.
  apply (set_required_caps_clear_fatal os_clear_enomem 37 caps_net_bind true
           (s_plan 0)).
  - simpl. lia.
  - simpl. discriminate.
  - simpl. discriminate.
Defined.
